(** * The ION system heap (drivers/staging/android/ion/ion_system_heap.c)

    A shallow embedding of the pooled "system heap" and of the
    "system contig heap", and the properties of their allocation, release
    and shrink paths.

    The page pools (ion_page_pool.c), the slab and page allocators and the
    buffer framework are not part of this file's sources: they are an
    interface ([Kernel]) over an abstract world, and every function of the
    heap is a computation over that world which also records the calls it
    makes to the interface. *)

From Stdlib Require Import ZArith List Bool Lia Sorted Permutation.
Import ListNotations.
Local Open Scope Z_scope.

(** ** Machine integers

    The tree is built for 32-bit targets with 4 KiB pages: [unsigned long],
    [unsigned int] and [int] are 32 bits wide.  Integers are [Z]; every
    operation that can leave the range of its C type is wrapped. *)

Definition BITS_PER_LONG : Z := 32.
Definition PAGE_SHIFT : Z := 12.
Definition PAGE_SIZE : Z := Z.shiftl 1 PAGE_SHIFT.

Definition ulong (x : Z) : Z := x mod 2 ^ BITS_PER_LONG.
Definition uint (x : Z) : Z := x mod 2 ^ 32.
Definition sint (x : Z) : Z := (x + 2 ^ 31) mod 2 ^ 32 - 2 ^ 31.

Definition INT_MIN : Z := - 2 ^ 31.
Definition INT_MAX : Z := 2 ^ 31 - 1.

(** [#define PAGE_MASK (~(PAGE_SIZE-1))] and
    [#define PAGE_ALIGN(addr) ALIGN(addr, PAGE_SIZE)], on [unsigned long]. *)
Definition PAGE_MASK : Z := ulong (Z.lnot (PAGE_SIZE - 1)).
Definition PAGE_ALIGN (addr : Z) : Z :=
  Z.land (ulong (addr + (PAGE_SIZE - 1))) PAGE_MASK.

(** [fls(x)]: position of the most significant set bit, [fls(0) = 0]. *)
Definition fls (x : Z) : Z := if x <=? 0 then 0 else Z.log2 x + 1.

(** Modelled from the spec: [get_order] is a kernel helper that is not in
    the sources; it is "the smallest power-of-two order covering [length]",
    computed by the kernel as [fls((size - 1) >> PAGE_SHIFT)] on
    [unsigned long]. *)
Definition get_order (size : Z) : Z :=
  fls (Z.shiftr (ulong (size - 1)) PAGE_SHIFT).

Definition EINVAL : Z := 22.
Definition ENOMEM : Z := 12.

(** Modelled from the spec: the two flag bits come from ion.h and
    ion_priv.h, which are not in the sources; [ION_FLAG_CACHED] is the
    cacheability flag of a buffer and [ION_PRIV_FLAG_SHRINKER_FREE] marks a
    shrinker-originated free. *)
Definition ION_FLAG_CACHED : Z := 1.
Definition ION_PRIV_FLAG_SHRINKER_FREE : Z := 1.

(** ** Data *)

(** [struct page *]: a page frame, named by its frame number, so that
    [page + i] is the i-th following frame. *)
Definition page_ptr : Type := Z.

(** [struct scatterlist]: one segment of a buffer. *)
Record scatterlist : Type := mk_sg {
  sg_page : page_ptr;
  sg_length : Z;
  sg_offset : Z
}.

(** [struct sg_table]: the segments in order; [nents] is their number. *)
Definition sg_table_t : Type := list scatterlist.

(** The fields of [struct ion_buffer] that the heap reads or writes. *)
Record ion_buffer : Type := mk_buffer {
  flags : Z;
  private_flags : Z;
  size : Z;
  priv_virt : option sg_table_t;
  sg_table : option sg_table_t
}.

Definition set_priv_virt (b : ion_buffer) (t : sg_table_t) : ion_buffer :=
  {| flags := flags b; private_flags := private_flags b; size := size b;
     priv_virt := Some t; sg_table := sg_table b |}.

Definition set_sg_table (b : ion_buffer) (t : option sg_table_t) : ion_buffer :=
  {| flags := flags b; private_flags := private_flags b; size := size b;
     priv_virt := priv_virt b; sg_table := t |}.

(** [ion_buffer_cached(buffer)] is [!!(buffer->flags & ION_FLAG_CACHED)]. *)
Definition ion_buffer_cached (b : ion_buffer) : bool :=
  negb (Z.land (flags b) ION_FLAG_CACHED =? 0).

Definition shrinker_free (b : ion_buffer) : bool :=
  negb (Z.land (private_flags b) ION_PRIV_FLAG_SHRINKER_FREE =? 0).

(** [struct page_info], without its list linkage: the list of acquired
    runs is a Rocq list, [list_add_tail] appends to it. *)
Record page_info : Type := mk_info {
  page : page_ptr;
  order : Z
}.

(** The two pool arrays of [struct ion_system_heap]; a [struct
    ion_page_pool *] is named by the array it sits in and its index. *)
Inductive bank : Type := uncached_pools | cached_pools.
Definition pool_ref : Type := (bank * nat)%type.

Definition bank_eqb (a b : bank) : bool :=
  match a, b with
  | uncached_pools, uncached_pools | cached_pools, cached_pools => true
  | _, _ => false
  end.

Definition pool_ref_eqb (a b : pool_ref) : bool :=
  bank_eqb (fst a) (fst b) && Nat.eqb (snd a) (snd b).

(** [static const unsigned int orders[] = {8, 4, 0}]. *)
Definition orders : list Z := [8; 4; 0].
Definition num_orders : nat := length orders.

(** ** The interface to the rest of the kernel *)

Definition gfp_t : Type := Z.

(** Calls that leave the heap, with what they returned. *)
Inductive event : Type :=
| ev_pool_alloc (pool : pool_ref) (pg : option page_ptr)
| ev_pool_free (pool : pool_ref) (pg : page_ptr)
| ev_pool_shrink (pool : pool_ref) (gfp_mask : gfp_t) (nr_to_scan : Z) (ret : Z)
| ev_alloc_pages (gfp_mask : gfp_t) (ord : Z) (pg : option page_ptr)
| ev_split_page (pg : page_ptr) (ord : Z)
| ev_free_pages (pg : page_ptr) (ord : Z)
| ev_buffer_zero (table : option sg_table_t)
| ev_sync_for_device (pg : page_ptr) (len : Z).

(** Modelled from the spec: the external collaborators of section 6
    ([allocate_page() -> Page | none], [return_page(Page)],
    [shrink(allocation_policy, request_count) -> freed_count]) and the
    allocators the heaps call, as state transformers of a world [W].
    Nothing is assumed about them. *)
Class Kernel (W : Type) : Type := {
  totalram_pages : W -> Z;
  low_order_gfp_flags : gfp_t;
  kmalloc : W -> bool * W;
  sg_alloc_table : Z -> W -> Z * W;
  ion_page_pool_alloc : pool_ref -> W -> option page_ptr * W;
  ion_page_pool_free : pool_ref -> page_ptr -> W -> W;
  ion_page_pool_shrink : pool_ref -> gfp_t -> Z -> W -> Z * W;
  alloc_pages : gfp_t -> Z -> W -> option page_ptr * W;
  split_page : page_ptr -> Z -> W -> W;
  __free_pages : page_ptr -> Z -> W -> W;
  ion_heap_buffer_zero : ion_buffer -> W -> W;
  ion_pages_sync_for_device : page_ptr -> Z -> W -> W
}.

(** Modelled from the spec: the one thing section 4.3 takes from a pool, a
    request count of zero is an inventory query: it answers the number of
    pages resident in that pool and frees nothing. *)
Class PoolInventory (W : Type) `{Kernel W} : Type := {
  resident : pool_ref -> W -> Z;
  shrink_zero : forall pool gfp_mask w,
    ion_page_pool_shrink pool gfp_mask 0 w = (resident pool w, w)
}.

(** ** Computations

    A computation runs on a world, ends with a value or stops at a fault,
    and yields the world it leaves and the calls it made, oldest first. *)

Inductive fault : Type :=
| BUG            (* the BUG() of order_to_index *)
| NULL_deref     (* a buffer without its table *)
| out_of_fuel.   (* a loop not finished in its allotted steps *)

Inductive result (A : Type) : Type :=
| Done (a : A)
| Stop (f : fault).
Arguments Done {A} a.
Arguments Stop {A} f.

Definition M (W A : Type) : Type := W -> result A * W * list event.

Definition ret {W A} (a : A) : M W A := fun w => (Done a, w, []).

Definition bind {W A B} (m : M W A) (k : A -> M W B) : M W B :=
  fun w =>
    match m w with
    | (Done a, w1, t1) =>
        match k a w1 with
        | (r, w2, t2) => (r, w2, t1 ++ t2)
        end
    | (Stop f, w1, t1) => (Stop f, w1, t1)
    end.

Definition stop {W A} (f : fault) : M W A := fun w => (Stop f, w, []).

Declare Scope heap_scope.
Delimit Scope heap_scope with heap.
Notation "x <- m ;; k" := (bind m (fun x => k))
  (at level 100, m at next level, right associativity) : heap_scope.
Notation "m ;; k" := (bind m (fun _ => k))
  (at level 100, right associativity) : heap_scope.
Local Open Scope heap_scope.

Fixpoint for_each {W A} (body : A -> M W unit) (l : list A) : M W unit :=
  match l with
  | [] => ret tt
  | a :: l' => body a ;; for_each body l'
  end.

(** [for (i = from; i < from + n; i++)]. *)
Fixpoint range (from : Z) (n : nat) : list Z :=
  match n with
  | O => []
  | S n' => from :: range (from + 1) n'
  end.

(** ** The system heap

    The functions follow the source statement by statement.  Left out are
    the calls that neither the result nor the pages depend on: the
    [do_gettimeofday] and [pr_debug] pair around the loop of
    [ion_system_heap_allocate], and [kfree] and [sg_free_table] of the
    bookkeeping structures. *)

Section SystemHeap.
Context {W : Type} {K : Kernel W}.

(** The calls to the interface, each recorded with its answer. *)

Definition call_kmalloc : M W bool :=
  fun w => let (r, w') := kmalloc w in (Done r, w', []).

Definition call_sg_alloc_table (nents : Z) : M W Z :=
  fun w => let (r, w') := sg_alloc_table nents w in (Done r, w', []).

Definition read_totalram_pages : M W Z :=
  fun w => (Done (totalram_pages w), w, []).

Definition call_pool_alloc (pool : pool_ref) : M W (option page_ptr) :=
  fun w => let (r, w') := ion_page_pool_alloc pool w in
           (Done r, w', [ev_pool_alloc pool r]).

Definition call_pool_free (pool : pool_ref) (pg : page_ptr) : M W unit :=
  fun w => (Done tt, ion_page_pool_free pool pg w, [ev_pool_free pool pg]).

Definition call_pool_shrink (pool : pool_ref) (gfp_mask : gfp_t)
    (nr_to_scan : Z) : M W Z :=
  fun w => let (r, w') := ion_page_pool_shrink pool gfp_mask nr_to_scan w in
           (Done r, w', [ev_pool_shrink pool gfp_mask nr_to_scan r]).

Definition call_alloc_pages (gfp_mask : gfp_t) (ord : Z)
    : M W (option page_ptr) :=
  fun w => let (r, w') := alloc_pages gfp_mask ord w in
           (Done r, w', [ev_alloc_pages gfp_mask ord r]).

Definition call_split_page (pg : page_ptr) (ord : Z) : M W unit :=
  fun w => (Done tt, split_page pg ord w, [ev_split_page pg ord]).

Definition call_free_pages (pg : page_ptr) (ord : Z) : M W unit :=
  fun w => (Done tt, __free_pages pg ord w, [ev_free_pages pg ord]).

(** [#define __free_page(page) __free_pages((page), 0)]. *)
Definition call_free_page (pg : page_ptr) : M W unit := call_free_pages pg 0.

Definition call_buffer_zero (b : ion_buffer) : M W unit :=
  fun w => (Done tt, ion_heap_buffer_zero b w, [ev_buffer_zero (sg_table b)]).

Definition call_sync_for_device (pg : page_ptr) (len : Z) : M W unit :=
  fun w => (Done tt, ion_pages_sync_for_device pg len w,
            [ev_sync_for_device pg len]).

(** [order_to_index]: the index of [order] in the table, [None] where the
    source reaches [BUG()]. *)
Fixpoint order_to_index_from (i : nat) (tbl : list Z) (order : Z)
    : option nat :=
  match tbl with
  | [] => None
  | o :: tbl' =>
      if order =? o then Some i else order_to_index_from (S i) tbl' order
  end.

Definition order_to_index (order : Z) : option nat :=
  order_to_index_from 0 orders order.

Definition order_to_index_or_BUG (order : Z) : M W nat :=
  match order_to_index order with
  | Some i => ret i
  | None => stop BUG
  end.

(** [order_to_size] returns [unsigned int]. *)
Definition order_to_size (order : Z) : Z :=
  uint (ulong (Z.shiftl PAGE_SIZE order)).

Definition alloc_buffer_page (buffer : ion_buffer) (order : Z)
    : M W (option page_ptr) :=
  let cached := ion_buffer_cached buffer in
  i <- order_to_index_or_BUG order ;;
  let pool := if negb cached then (uncached_pools, i) else (cached_pools, i) in
  pg <- call_pool_alloc pool ;;
  match pg with
  | None => ret None
  | Some pg => ret (Some pg)
  end.

Definition free_buffer_page (buffer : ion_buffer) (pg : page_ptr) (order : Z)
    : M W unit :=
  let cached := ion_buffer_cached buffer in
  if shrinker_free buffer then
    call_free_pages pg order
  else
    i <- order_to_index_or_BUG order ;;
    let pool := if cached then (cached_pools, i) else (uncached_pools, i) in
    call_pool_free pool pg.

(** The [for] loop of [alloc_largest_available] over the rest [tbl] of the
    table of orders. *)
Fixpoint alloc_largest_scan (tbl : list Z) (buffer : ion_buffer)
    (size max_order : Z) : M W (option page_info) :=
  match tbl with
  | [] => ret None
  | o :: tbl' =>
      if size <? order_to_size o then
        alloc_largest_scan tbl' buffer size max_order
      else if max_order <? o then
        alloc_largest_scan tbl' buffer size max_order
      else
        pg <- alloc_buffer_page buffer o ;;
        match pg with
        | None => alloc_largest_scan tbl' buffer size max_order
        | Some pg => ret (Some {| page := pg; order := o |})
        end
  end.

Definition alloc_largest_available (buffer : ion_buffer) (size max_order : Z)
    : M W (option page_info) :=
  info <- call_kmalloc ;;
  if negb info then ret None
  else alloc_largest_scan orders buffer size max_order.

(** The byte length [(1 << info->order) * PAGE_SIZE] of a run. *)
Definition run_bytes (order : Z) : Z :=
  ulong (sint (Z.shiftl 1 order) * PAGE_SIZE).

(** The [while (size_remaining > 0)] loop of [ion_system_heap_allocate].
    It answers whether it ran to its end ([false]: [goto err]), the list
    [pages] and the counter [i]. *)
Fixpoint alloc_loop (fuel : nat) (buffer : ion_buffer)
    (size_remaining max_order : Z) (i : Z) (pages : list page_info)
    : M W (bool * list page_info * Z) :=
  if 0 <? size_remaining then
    match fuel with
    | O => stop out_of_fuel
    | S fuel' =>
        info <- alloc_largest_available buffer size_remaining max_order ;;
        match info with
        | None => ret (false, pages, i)
        | Some info =>
            alloc_loop fuel' buffer
              (ulong (size_remaining - run_bytes (order info)))
              (order info) (sint (i + 1)) (pages ++ [info])
        end
    end
  else ret (true, pages, i).

(** The [err:] label: every run on [pages] goes through
    [free_buffer_page]. *)
Definition alloc_rollback (buffer : ion_buffer) (pages : list page_info)
    : M W (Z * ion_buffer) :=
  for_each (fun info => free_buffer_page buffer (page info) (order info))
    pages ;;
  ret (- ENOMEM, buffer).

Definition sg_of_info (info : page_info) : scatterlist :=
  {| sg_page := page info; sg_length := uint (run_bytes (order info));
     sg_offset := 0 |}.

(** The loop runs at most once for each page of the request. *)
Definition alloc_fuel (size_remaining : Z) : nat :=
  Z.to_nat (Z.shiftr size_remaining PAGE_SHIFT).

Definition ion_system_heap_allocate (buffer : ion_buffer)
    (size align flags : Z) : M W (Z * ion_buffer) :=
  let size_remaining := PAGE_ALIGN size in
  let max_order := nth 0 orders 0 in
  if PAGE_SIZE <? align then ret (- EINVAL, buffer)
  else
    total <- read_totalram_pages ;;
    if total / 2 <? size / PAGE_SIZE then ret (- ENOMEM, buffer)
    else
      r <- alloc_loop (alloc_fuel size_remaining) buffer size_remaining
             max_order 0 [] ;;
      let '(finished, pages, i) := r in
      if negb finished then alloc_rollback buffer pages
      else
        table <- call_kmalloc ;;
        if negb table then alloc_rollback buffer pages
        else
          r <- call_sg_alloc_table i ;;
          if negb (r =? 0) then alloc_rollback buffer pages
          else ret (0, set_priv_virt buffer (map sg_of_info pages)).

Definition ion_system_heap_free (buffer : ion_buffer) : M W unit :=
  match sg_table buffer with
  | None => stop NULL_deref
  | Some table =>
      (if negb (shrinker_free buffer) then call_buffer_zero buffer
       else ret tt) ;;
      for_each (fun sg => free_buffer_page buffer (sg_page sg)
                            (get_order (sg_length sg))) table
  end.

Definition ion_system_heap_map_dma (buffer : ion_buffer)
    : option sg_table_t := priv_virt buffer.

(** The first loop of [ion_system_heap_shrink] from index [i] on; it
    answers [nr_freed]. *)
Fixpoint shrink_drain (n : nat) (i : nat) (gfp_mask : gfp_t)
    (nr_to_scan nr_freed : Z) : M W Z :=
  match n with
  | O => ret nr_freed
  | S n' =>
      r <- call_pool_shrink (uncached_pools, i) gfp_mask nr_to_scan ;;
      let nr_freed := sint (nr_freed + r) in
      if nr_to_scan <=? nr_freed then ret nr_freed
      else
        r <- call_pool_shrink (cached_pools, i) gfp_mask nr_to_scan ;;
        let nr_freed := sint (nr_freed + r) in
        if nr_to_scan <=? nr_freed then ret nr_freed
        else shrink_drain n' (S i) gfp_mask nr_to_scan nr_freed
  end.

(** The loop after [end:] from index [i] on; it answers [nr_total]. *)
Fixpoint shrink_inventory (n : nat) (i : nat) (gfp_mask : gfp_t)
    (nr_total : Z) : M W Z :=
  match n with
  | O => ret nr_total
  | S n' =>
      r <- call_pool_shrink (uncached_pools, i) gfp_mask 0 ;;
      let nr_total := sint (nr_total + r) in
      r <- call_pool_shrink (cached_pools, i) gfp_mask 0 ;;
      let nr_total := sint (nr_total + r) in
      shrink_inventory n' (S i) gfp_mask nr_total
  end.

Definition ion_system_heap_shrink (gfp_mask : gfp_t) (nr_to_scan : Z)
    : M W Z :=
  (if nr_to_scan =? 0 then ret 0
   else shrink_drain num_orders 0 gfp_mask nr_to_scan 0) ;;
  shrink_inventory num_orders 0 gfp_mask 0.

(** ** The contiguous heap *)

Definition ion_system_contig_heap_allocate (buffer : ion_buffer)
    (len align flags : Z) : M W (Z * ion_buffer) :=
  let order := get_order len in
  if ulong (Z.shiftl PAGE_SIZE order) <? align then ret (- EINVAL, buffer)
  else
    pg <- call_alloc_pages low_order_gfp_flags order ;;
    match pg with
    | None => ret (- ENOMEM, buffer)
    | Some pg =>
        call_split_page pg order ;;
        let len := PAGE_ALIGN len in
        let first := Z.shiftr len PAGE_SHIFT in
        for_each (fun i => call_free_page (pg + i))
          (range first (Z.to_nat (ulong (sint (Z.shiftl 1 order)) - first))) ;;
        let out (r : Z) : M W (Z * ion_buffer) :=
          for_each (fun i => call_free_page (pg + i))
            (range 0 (Z.to_nat first)) ;;
          ret (r, buffer) in
        table <- call_kmalloc ;;
        if negb table then out (- ENOMEM)
        else
          r <- call_sg_alloc_table 1 ;;
          if negb (r =? 0) then out r
          else
            call_sync_for_device pg len ;;
            ret (0, set_priv_virt buffer
                      [{| sg_page := pg; sg_length := uint len;
                          sg_offset := 0 |}])
    end.

Definition ion_system_contig_heap_free (buffer : ion_buffer) : M W unit :=
  match priv_virt buffer with
  | None | Some [] => stop NULL_deref
  | Some (sg :: _) =>
      let pg := sg_page sg in
      let pages := Z.shiftr (PAGE_ALIGN (size buffer)) PAGE_SHIFT in
      for_each (fun i => call_free_page (pg + i)) (range 0 (Z.to_nat pages))
  end.

End SystemHeap.

(** ** A reference kernel

    One concrete world, to run the heap on: each pool is the list of its
    resident pages, the page allocator hands out consecutive frames, and
    [sim_fail] lists the outcomes of the coming [kmalloc] and
    [sg_alloc_table] calls ([true]: the call fails; none left: it
    succeeds). *)

Record sim : Type := mk_sim {
  sim_totalram : Z;
  sim_fail : list bool;
  sim_uncached : list (list page_ptr);
  sim_cached : list (list page_ptr);
  sim_next : page_ptr
}.

Definition sim_pool (pool : pool_ref) (w : sim) : list page_ptr :=
  match fst pool with
  | uncached_pools => nth (snd pool) (sim_uncached w) []
  | cached_pools => nth (snd pool) (sim_cached w) []
  end.

Fixpoint set_nth {A} (i : nat) (a : A) (l : list A) : list A :=
  match l, i with
  | [], _ => []
  | _ :: l', O => a :: l'
  | b :: l', S i' => b :: set_nth i' a l'
  end.

Definition sim_set_pool (pool : pool_ref) (pages : list page_ptr) (w : sim)
    : sim :=
  match fst pool with
  | uncached_pools =>
      mk_sim (sim_totalram w) (sim_fail w)
        (set_nth (snd pool) pages (sim_uncached w)) (sim_cached w) (sim_next w)
  | cached_pools =>
      mk_sim (sim_totalram w) (sim_fail w) (sim_uncached w)
        (set_nth (snd pool) pages (sim_cached w)) (sim_next w)
  end.

Definition sim_next_fail (w : sim) : bool * sim :=
  match sim_fail w with
  | [] => (false, w)
  | f :: rest =>
      (f, mk_sim (sim_totalram w) rest (sim_uncached w) (sim_cached w)
            (sim_next w))
  end.

Definition sim_pool_alloc (pool : pool_ref) (w : sim)
    : option page_ptr * sim :=
  match sim_pool pool w with
  | [] => (None, w)
  | pg :: rest => (Some pg, sim_set_pool pool rest w)
  end.

Definition sim_pool_shrink (pool : pool_ref) (gfp_mask : gfp_t)
    (nr_to_scan : Z) (w : sim) : Z * sim :=
  let pages := sim_pool pool w in
  if nr_to_scan =? 0 then (Z.of_nat (length pages), w)
  else
    let k := Nat.min (Z.to_nat nr_to_scan) (length pages) in
    (Z.of_nat k, sim_set_pool pool (skipn k pages) w).

Definition sim_alloc_pages (gfp_mask : gfp_t) (ord : Z) (w : sim)
    : option page_ptr * sim :=
  if (0 <=? ord) && (ord <? 11) then
    (Some (sim_next w),
     mk_sim (sim_totalram w) (sim_fail w) (sim_uncached w) (sim_cached w)
       (sim_next w + 2 ^ ord))
  else (None, w).

#[export] Instance sim_kernel : Kernel sim := {|
  totalram_pages := sim_totalram;
  low_order_gfp_flags := 0;
  kmalloc := fun w => let (f, w') := sim_next_fail w in (negb f, w');
  sg_alloc_table := fun nents w =>
    let (f, w') := sim_next_fail w in
    (if f || (nents =? 0) then - ENOMEM else 0, w');
  ion_page_pool_alloc := sim_pool_alloc;
  ion_page_pool_free := fun pool pg w =>
    sim_set_pool pool (sim_pool pool w ++ [pg]) w;
  ion_page_pool_shrink := sim_pool_shrink;
  alloc_pages := sim_alloc_pages;
  split_page := fun _ _ w => w;
  __free_pages := fun _ _ w => w;
  ion_heap_buffer_zero := fun _ w => w;
  ion_pages_sync_for_device := fun _ _ w => w
|}.

#[export] Instance sim_inventory : PoolInventory sim := {|
  resident := fun pool w => Z.of_nat (length (sim_pool pool w));
  shrink_zero := fun pool gfp_mask w => eq_refl
|}.

(** ** What a trace says *)

(** The pages handed out by the pools, with the pool of each. *)
Definition acquired (t : list event) : list (pool_ref * page_ptr) :=
  flat_map (fun e => match e with
                     | ev_pool_alloc pool (Some pg) => [(pool, pg)]
                     | _ => []
                     end) t.

(** The pools that were asked for a page and had none. *)
Definition refused (t : list event) : list pool_ref :=
  flat_map (fun e => match e with
                     | ev_pool_alloc pool None => [pool]
                     | _ => []
                     end) t.

(** The pages given back to a pool, with the pool of each. *)
Definition returned (t : list event) : list (pool_ref * page_ptr) :=
  flat_map (fun e => match e with
                     | ev_pool_free pool pg => [(pool, pg)]
                     | _ => []
                     end) t.

(** The runs released to the page allocator, with the order of each. *)
Definition freed (t : list event) : list (page_ptr * Z) :=
  flat_map (fun e => match e with
                     | ev_free_pages pg ord => [(pg, ord)]
                     | _ => []
                     end) t.

(** The zeroing calls. *)
Definition zeroed (t : list event) : list (option sg_table_t) :=
  flat_map (fun e => match e with
                     | ev_buffer_zero table => [table]
                     | _ => []
                     end) t.

(** The order of the pages a pool holds: [pools[i]] is created with
    [orders[i]]. *)
Definition pool_order (pool : pool_ref) : Z := nth (snd pool) orders 0.

Definition bank_of (b : ion_buffer) : bank :=
  if ion_buffer_cached b then cached_pools else uncached_pools.

(** The pool a run of [order] of buffer [b] is taken from. *)
Definition origin (b : ion_buffer) (order : Z) : pool_ref :=
  (bank_of b, match order_to_index order with Some i => i | None => O end).

Definition total_length (t : sg_table_t) : Z :=
  fold_right (fun sg acc => sg_length sg + acc) 0 t.

(** The runs [new] of buffer [b], each with the pool it is taken from. *)
Definition taken (b : ion_buffer) (new : list page_info)
    : list (pool_ref * page_ptr) :=
  map (fun info => (origin b (order info), page info)) new.

(** Trace [t] gives back the runs [new] of buffer [b], each once and in
    their order: to the pool each came from, or, for a buffer marked
    [ION_PRIV_FLAG_SHRINKER_FREE], to the page allocator; and it takes
    nothing from any pool. *)
Definition given_back (b : ion_buffer) (new : list page_info)
    (t : list event) : Prop :=
  acquired t = [] /\
  if shrinker_free b then
    returned t = [] /\ freed t = map (fun info => (page info, order info)) new
  else
    returned t = taken b new /\ freed t = [].

(** What a call of [ion_system_heap_allocate] that got past its two guards
    has done when it answers [ret] and leaves buffer [b']: it took runs
    [new] (trace [t1]), and then either made them the table of the buffer,
    or gave every one of them back (trace [t2]). *)
Definition assembled (b : ion_buffer) (size ret : Z) (b' : ion_buffer)
    (t : list event) : Prop :=
  exists new t1 t2,
    t = t1 ++ t2 /\
    acquired t1 = taken b new /\ returned t1 = [] /\ freed t1 = [] /\
    zeroed t = [] /\
    Forall (fun info => In (order info) orders) new /\
    Sorted Z.ge (map order new) /\
    total_length (map sg_of_info new) <= PAGE_ALIGN size /\
    ((ret = 0 /\ b' = set_priv_virt b (map sg_of_info new) /\ t2 = [] /\
      total_length (map sg_of_info new) = PAGE_ALIGN size) \/
     (ret = - ENOMEM /\ b' = b /\ given_back b new t2)).

(** How [ion_system_heap_free] releases one segment of buffer [b]. *)
Definition release_event (b : ion_buffer) (sg : scatterlist) : event :=
  if shrinker_free b then
    ev_free_pages (sg_page sg) (get_order (sg_length sg))
  else
    ev_pool_free (origin b (get_order (sg_length sg))) (sg_page sg).

(** The pools in the order in which [ion_system_heap_shrink] visits
    them. *)
Definition drain_order : list pool_ref :=
  flat_map (fun i => [(uncached_pools, i); (cached_pools, i)])
    (seq 0 num_orders).

(** The requests to free pages in a trace, that is the calls of
    [ion_page_pool_shrink] with a count other than zero: the pool, the
    count asked for and the count answered. *)
Definition drains (t : list event) : list (pool_ref * Z * Z) :=
  flat_map (fun e => match e with
                     | ev_pool_shrink pool _ n r =>
                         if n =? 0 then [] else [(pool, n, r)]
                     | _ => []
                     end) t.

(** The number of pages the requests of a trace have freed. *)
Definition nr_freed_in (t : list event) : Z :=
  fold_right (fun d acc => snd d + acc) 0 (drains t).

(** [drained nr_to_scan nr_freed pools d]: starting with [nr_freed] pages
    freed and the pools [pools] still to visit, the requests [d] ask the
    pools in their order, each for [nr_to_scan] pages and only while
    fewer than [nr_to_scan] are freed, and end when [nr_to_scan] are freed
    or no pool is left. *)
Inductive drained (nr_to_scan : Z)
    : Z -> list pool_ref -> list (pool_ref * Z * Z) -> Prop :=
| drained_stop nr_freed pools :
    nr_to_scan <= nr_freed \/ pools = [] ->
    drained nr_to_scan nr_freed pools []
| drained_ask nr_freed pool pools r d :
    nr_freed < nr_to_scan ->
    drained nr_to_scan (sint (nr_freed + r)) pools d ->
    drained nr_to_scan nr_freed (pool :: pools) ((pool, nr_to_scan, r) :: d).

(** The pages resident in all the pools of both banks. *)
Definition total_resident {W} `{PoolInventory W} (w : W) : Z :=
  fold_right (fun pool acc => resident pool w + acc) 0 drain_order.

(** The inventory pass over a world it leaves as it is. *)
Definition inventory_trace {W} `{PoolInventory W} (gfp_mask : gfp_t) (w : W)
    : list event :=
  map (fun pool => ev_pool_shrink pool gfp_mask 0 (resident pool w))
    drain_order.

(** Worlds and buffers to run the heap on. *)
Definition uncached_buffer : ion_buffer := mk_buffer 0 0 0 None None.
Definition cached_buffer : ion_buffer := mk_buffer 1 0 0 None None.
Definition reclaimed_buffer : ion_buffer := mk_buffer 0 1 0 None None.

(** 32 MiB of memory; the uncached bank holds one order-4 run and six
    single pages, the cached bank one order-8 run. *)
Definition sim_stocked : sim :=
  mk_sim 8192 [] [[]; [100]; [1; 2; 3; 4; 5; 6]] [[5000]; []; []] 10000.

(** 32 MiB of memory; the uncached bank holds sixteen order-8 runs and
    two single pages. *)
Definition sim_roomy : sim :=
  mk_sim 8192 []
    [map (fun i => 256 * Z.of_nat i) (seq 1 16); []; [1; 2]] [[]; []; []]
    10000.

(** Eight pages of memory in all. *)
Definition sim_small : sim :=
  mk_sim 8 [] [[]; []; [1; 2; 3; 4; 5; 6]] [[]; []; []] 10000.

(** Only two single pages in the uncached bank. *)
Definition sim_scarce : sim :=
  mk_sim 8192 [] [[]; []; [1; 2]] [[]; []; []] 10000.

(** Enough pages; the first [nth_call] calls of [kmalloc] and
    [sg_alloc_table] succeed and the one after them fails. *)
Definition sim_slab_fails (nth_call : nat) : sim :=
  mk_sim 8192 (repeat false nth_call ++ [true])
    [[]; []; [1; 2; 3; 4; 5; 6]] [[]; []; []] 10000.

(** Three order-8 runs in the uncached bank, five in the cached one. *)
Definition sim_pressure : sim :=
  mk_sim 8192 [] [[1; 2; 3]; [100]; [200; 201]] [[7; 8; 9; 10; 11]; []; []]
    10000.

(** ** More to read off a trace *)

(** The pools a trace calls, for a page, to give one back or to shrink. *)
Definition touched (t : list event) : list pool_ref :=
  flat_map (fun e => match e with
                     | ev_pool_alloc pool _ => [pool]
                     | ev_pool_free pool _ => [pool]
                     | ev_pool_shrink pool _ _ _ => [pool]
                     | _ => []
                     end) t.

(** Every pool the trace calls is of the bank of buffer [b]. *)
Definition in_bank (b : ion_buffer) (t : list event) : Prop :=
  Forall (fun pool => fst pool = bank_of b) (touched t).

(** The inventory queries in a trace, that is the calls of
    [ion_page_pool_shrink] with a count of zero: the pool and its
    answer. *)
Definition inventories (t : list event) : list (pool_ref * Z) :=
  flat_map (fun e => match e with
                     | ev_pool_shrink pool _ n r =>
                         if n =? 0 then [(pool, r)] else []
                     | _ => []
                     end) t.

(** The orders of the runs that cover [n] pages with as many runs of
    order 8 as fit, then as many of order 4, then single pages. *)
Definition greedy_orders (n : Z) : list Z :=
  repeat 8 (Z.to_nat (n / 256)) ++
  repeat 4 (Z.to_nat (n mod 256 / 16)) ++
  repeat 0 (Z.to_nat (n mod 16)).

(** A kernel that never runs short, to run the heap on: the world is the
    next free page frame, every pool hands out a fresh run at each call
    and no allocation fails. *)
#[export] Instance endless_kernel : Kernel Z := {|
  totalram_pages := fun _ => 2 ^ 20;
  low_order_gfp_flags := 0;
  kmalloc := fun w => (true, w);
  sg_alloc_table := fun _ w => (0, w);
  ion_page_pool_alloc := fun pool w => (Some w, w + 2 ^ pool_order pool);
  ion_page_pool_free := fun _ _ w => w;
  ion_page_pool_shrink := fun _ _ _ w => (0, w);
  alloc_pages := fun _ ord w => (Some w, w + 2 ^ ord);
  split_page := fun _ _ w => w;
  __free_pages := fun _ _ w => w;
  ion_heap_buffer_zero := fun _ w => w;
  ion_pages_sync_for_device := fun _ _ w => w
|}.

(** ** The life of the pools

    [ion_system_heap_create_pools], [ion_system_heap_destroy_pools],
    [ion_system_heap_create], [ion_system_heap_destroy] and the two
    functions that create and destroy the contiguous heap.  They call the
    slab allocator and the makers of pools, which have a trace of their
    own. *)

Module Lifecycle.

(** [struct ion_page_pool *] and the address of a block of the slab
    allocator. *)
Definition pool_ptr : Type := Z.
Definition mem_ptr : Type := Z.

(** What [kzalloc] is asked for. *)
Inductive alloc_size : Type :=
| sizeof_ion_system_heap
| sizeof_ion_heap
| pools_size.

Inductive call : Type :=
| ev_kzalloc (what : alloc_size) (r : option mem_ptr)
| ev_kfree (p : mem_ptr)
| ev_pool_create (gfp_mask : gfp_t) (ord : Z) (r : option pool_ptr)
| ev_pool_destroy (pool : pool_ptr).

(** Modelled from the spec: the [create(allocation_policy, order) ->
    Pool | none] and [destroy(Pool)] of section 6 and the slab allocator,
    as state transformers of a world, and the value of
    [high_order_gfp_flags], whose bits come from headers that are not in
    the sources.  Nothing is assumed about them. *)
Class PoolFactory (W : Type) `{Kernel W} : Type := {
  high_order_gfp_flags : gfp_t;
  kzalloc : alloc_size -> W -> option mem_ptr * W;
  kfree : mem_ptr -> W -> W;
  ion_page_pool_create : gfp_t -> Z -> W -> option pool_ptr * W;
  ion_page_pool_destroy : pool_ptr -> W -> W
}.

Inductive ion_heap_type : Type :=
| ION_HEAP_TYPE_SYSTEM
| ION_HEAP_TYPE_SYSTEM_CONTIG.

Inductive ion_heap_ops : Type := system_heap_ops | kmalloc_ops.

(** Modelled from the spec: the flag bit comes from ion.h, which is not
    in the sources. *)
Definition ION_HEAP_FLAG_DEFER_FREE : Z := 1.

(** [struct ion_heap]: the block it lives in and the fields the heaps
    set; [debug_show] is whether the hook is set. *)
Record ion_heap : Type := mk_heap {
  heap_block : mem_ptr;
  ops : ion_heap_ops;
  type : ion_heap_type;
  flags : Z;
  debug_show : bool
}.

(** An array of [num_orders] pointers to pools: the block it lives in
    and its slots, [None] for [NULL]. *)
Record pool_array : Type := mk_array {
  block : mem_ptr;
  slots : list (option pool_ptr)
}.

Record ion_system_heap : Type := mk_system_heap {
  heap : ion_heap;
  uncached_pools : pool_array;
  cached_pools : pool_array
}.

(** A computation yields a value, the world it leaves and its calls,
    oldest first. *)
Definition L (W A : Type) : Type := W -> A * W * list call.

Definition lret {W A} (a : A) : L W A := fun w => (a, w, []).

Definition lbind {W A B} (m : L W A) (k : A -> L W B) : L W B :=
  fun w =>
    match m w with
    | (a, w1, t1) =>
        match k a w1 with
        | (b, w2, t2) => (b, w2, t1 ++ t2)
        end
    end.

Declare Scope life_scope.
Delimit Scope life_scope with life.
Notation "x <- m ;; k" := (lbind m (fun x => k))
  (at level 100, m at next level, right associativity) : life_scope.
Notation "m ;; k" := (lbind m (fun _ => k))
  (at level 100, right associativity) : life_scope.

Section Functions.
Context {W : Type} {K : Kernel W} {F : PoolFactory W}.
Local Open Scope life_scope.

Definition call_kzalloc (what : alloc_size) : L W (option mem_ptr) :=
  fun w => let (r, w') := kzalloc what w in (r, w', [ev_kzalloc what r]).

Definition call_kfree (p : mem_ptr) : L W unit :=
  fun w => (tt, kfree p w, [ev_kfree p]).

Definition call_pool_create (gfp_mask : gfp_t) (ord : Z)
    : L W (option pool_ptr) :=
  fun w => let (r, w') := ion_page_pool_create gfp_mask ord w in
           (r, w', [ev_pool_create gfp_mask ord r]).

Definition call_pool_destroy (pool : pool_ptr) : L W unit :=
  fun w => (tt, ion_page_pool_destroy pool w, [ev_pool_destroy pool]).

Fixpoint each {A} (body : A -> L W unit) (l : list A) : L W unit :=
  match l with
  | [] => lret tt
  | a :: l' => body a ;; each body l'
  end.

Definition ion_system_heap_destroy_pools (pools : list (option pool_ptr))
    : L W unit :=
  each (fun i => match nth i pools None with
                 | Some pool => call_pool_destroy pool
                 | None => lret tt
                 end) (seq 0 num_orders).

(** The loop of [ion_system_heap_create_pools] from index [i] on, over
    the rest [tbl] of the table of orders.  It answers what the function
    returns and the slots as it leaves them. *)
Fixpoint create_pools_from (i : nat) (tbl : list Z)
    (pools : list (option pool_ptr)) : L W (Z * list (option pool_ptr)) :=
  match tbl with
  | [] => lret (0, pools)
  | o :: tbl' =>
      let gfp_flags :=
        if negb (o =? 0) then high_order_gfp_flags
        else low_order_gfp_flags in
      pool <- call_pool_create gfp_flags o ;;
      match pool with
      | None => ion_system_heap_destroy_pools pools ;; lret (1, pools)
      | Some pool => create_pools_from (S i) tbl' (set_nth i (Some pool) pools)
      end
  end.

Definition ion_system_heap_create_pools (pools : list (option pool_ptr))
    : L W (Z * list (option pool_ptr)) :=
  create_pools_from 0 orders pools.

(** [ERR_PTR(-ENOMEM)] is [inr (- ENOMEM)].  [kzalloc] zeroes the
    arrays: all their slots are [NULL]. *)
Definition ion_system_heap_create : L W (ion_system_heap + Z) :=
  heap <- call_kzalloc sizeof_ion_system_heap ;;
  match heap with
  | None => lret (inr (- ENOMEM))
  | Some heap =>
      uncached <- call_kzalloc pools_size ;;
      match uncached with
      | None => call_kfree heap ;; lret (inr (- ENOMEM))
      | Some uncached =>
          cached <- call_kzalloc pools_size ;;
          match cached with
          | None =>
              call_kfree uncached ;; call_kfree heap ;;
              lret (inr (- ENOMEM))
          | Some cached =>
              r <- ion_system_heap_create_pools (repeat None num_orders) ;;
              let '(failed, uncached_slots) := r in
              if negb (failed =? 0) then
                call_kfree cached ;; call_kfree uncached ;;
                call_kfree heap ;; lret (inr (- ENOMEM))
              else
                r <- ion_system_heap_create_pools
                       (repeat None num_orders) ;;
                let '(failed, cached_slots) := r in
                if negb (failed =? 0) then
                  ion_system_heap_destroy_pools uncached_slots ;;
                  call_kfree cached ;; call_kfree uncached ;;
                  call_kfree heap ;; lret (inr (- ENOMEM))
                else
                  lret (inl {|
                    heap := {| heap_block := heap; ops := system_heap_ops;
                               type := ION_HEAP_TYPE_SYSTEM;
                               flags := ION_HEAP_FLAG_DEFER_FREE;
                               debug_show := true |};
                    uncached_pools := mk_array uncached uncached_slots;
                    cached_pools := mk_array cached cached_slots |})
          end
      end
  end.

Definition ion_system_heap_destroy (sys_heap : ion_system_heap) : L W unit :=
  ion_system_heap_destroy_pools (slots (uncached_pools sys_heap)) ;;
  ion_system_heap_destroy_pools (slots (cached_pools sys_heap)) ;;
  call_kfree (block (uncached_pools sys_heap)) ;;
  call_kfree (block (cached_pools sys_heap)) ;;
  call_kfree (heap_block (heap sys_heap)).

Definition ion_system_contig_heap_create : L W (ion_heap + Z) :=
  heap <- call_kzalloc sizeof_ion_heap ;;
  match heap with
  | None => lret (inr (- ENOMEM))
  | Some heap =>
      lret (inl {| heap_block := heap; ops := kmalloc_ops;
                   type := ION_HEAP_TYPE_SYSTEM_CONTIG;
                   flags := 0; debug_show := false |})
  end.

Definition ion_system_contig_heap_destroy (heap : ion_heap) : L W unit :=
  call_kfree (heap_block heap).

End Functions.

(** The pools made, the pools destroyed, the blocks obtained and the
    blocks freed in a trace. *)
Definition created (t : list call) : list pool_ptr :=
  flat_map (fun e => match e with
                     | ev_pool_create _ _ (Some pool) => [pool]
                     | _ => []
                     end) t.

Definition destroyed (t : list call) : list pool_ptr :=
  flat_map (fun e => match e with
                     | ev_pool_destroy pool => [pool]
                     | _ => []
                     end) t.

Definition obtained (t : list call) : list mem_ptr :=
  flat_map (fun e => match e with
                     | ev_kzalloc _ (Some p) => [p]
                     | _ => []
                     end) t.

Definition released (t : list call) : list mem_ptr :=
  flat_map (fun e => match e with
                     | ev_kfree p => [p]
                     | _ => []
                     end) t.

(** The pools in the slots of an array, [NULL] slots left out. *)
Definition present (pools : list (option pool_ptr)) : list pool_ptr :=
  flat_map (fun slot => match slot with
                        | Some pool => [pool]
                        | None => []
                        end) pools.

(** The policy and the order of every pool asked for, made or not. *)
Definition requested (t : list call) : list (gfp_t * Z) :=
  flat_map (fun e => match e with
                     | ev_pool_create gfp_mask ord _ => [(gfp_mask, ord)]
                     | _ => []
                     end) t.

(** The reference kernel as a maker of pools: blocks and pools are
    numbered from [sim_next] on, and [sim_fail] lists the outcomes of the
    coming [kzalloc] and [ion_page_pool_create] calls. *)
Definition sim_make (w : sim) : option Z * sim :=
  let (f, w') := sim_next_fail w in
  if f then (None, w')
  else (Some (sim_next w'),
        mk_sim (sim_totalram w') (sim_fail w') (sim_uncached w')
          (sim_cached w') (sim_next w' + 1)).

#[export] Instance sim_factory : PoolFactory sim := {|
  high_order_gfp_flags := 1;
  kzalloc := fun _ w => sim_make w;
  kfree := fun _ w => w;
  ion_page_pool_create := fun _ _ w => sim_make w;
  ion_page_pool_destroy := fun _ w => w
|}.

(** A world where the call number [nth_call + 1] of [kzalloc] and
    [ion_page_pool_create] fails and the others succeed. *)
Definition sim_failing (nth_call : nat) : sim :=
  mk_sim 8192 (repeat false nth_call ++ [true]) [] [] 100.

End Lifecycle.

(** Reads the four lists off a trace built with [::] and [++]. *)
Ltac read_life_trace :=
  unfold Lifecycle.destroyed, Lifecycle.created, Lifecycle.released,
    Lifecycle.obtained, Lifecycle.requested in *;
  cbn [flat_map app]; rewrite ?flat_map_app; cbn [flat_map app].

(** ** Reasoning about computations *)

Section Post.
Context {W : Type}.

Definition post {A} (m : M W A) (w : W)
    (Q : result A -> W -> list event -> Prop) : Prop :=
  match m w with (r, w', t) => Q r w' t end.

Lemma post_run {A} (m : M W A) w Q :
  post m w Q <-> (forall r w' t, m w = (r, w', t) -> Q r w' t).
Proof.
  unfold post. split.
  - intros H r w' t E. rewrite E in H. exact H.
  - intros H. destruct (m w) as [[r w'] t]. apply H. reflexivity.
Qed.

Lemma post_ret {A} (a : A) w (Q : result A -> W -> list event -> Prop) :
  Q (Done a) w [] -> post (ret a) w Q.
Proof. intros H. exact H. Qed.

Lemma post_stop {A} f w (Q : result A -> W -> list event -> Prop) :
  Q (Stop f) w [] -> post (stop f) w Q.
Proof. intros H. exact H. Qed.

Lemma post_bind {A B} (m : M W A) (k : A -> M W B) w Q :
  post m w (fun r w1 t1 =>
    match r with
    | Done a => post (k a) w1 (fun r2 w2 t2 => Q r2 w2 (t1 ++ t2))
    | Stop f => Q (Stop f) w1 t1
    end) ->
  post (bind m k) w Q.
Proof.
  unfold post, bind. destruct (m w) as [[[a | f] w1] t1]; auto.
  destruct (k a w1) as [[r2 w2] t2]. auto.
Qed.

Lemma post_weaken {A} (m : M W A) w (Q Q' : result A -> W -> list event -> Prop) :
  post m w Q -> (forall r w' t, Q r w' t -> Q' r w' t) -> post m w Q'.
Proof.
  unfold post. destruct (m w) as [[r w'] t]. auto.
Qed.

End Post.

(** ** Arithmetic of pages and orders *)

Lemma PAGE_SIZE_val : PAGE_SIZE = 4096.
Proof. reflexivity. Qed.

Lemma ulong_range x : 0 <= ulong x < 2 ^ 32.
Proof. unfold ulong, BITS_PER_LONG. apply Z.mod_pos_bound. lia. Qed.

Lemma ulong_small x : 0 <= x < 2 ^ 32 -> ulong x = x.
Proof. intros H. unfold ulong, BITS_PER_LONG. apply Z.mod_small. exact H. Qed.

Lemma uint_small x : 0 <= x < 2 ^ 32 -> uint x = x.
Proof. intros H. unfold uint. apply Z.mod_small. exact H. Qed.

Lemma sint_small x : - 2 ^ 31 <= x < 2 ^ 31 -> sint x = x.
Proof. intros H. unfold sint. rewrite Z.mod_small; lia. Qed.

Lemma sint_range x : - 2 ^ 31 <= sint x < 2 ^ 31.
Proof.
  unfold sint. pose proof (Z.mod_pos_bound (x + 2 ^ 31) (2 ^ 32)). lia.
Qed.

(** Adding in [int] step by step is adding in [Z] and wrapping once. *)
Lemma sint_add_l a b : sint (sint a + b) = sint (a + b).
Proof.
  unfold sint.
  replace ((a + 2 ^ 31) mod 2 ^ 32 - 2 ^ 31 + b + 2 ^ 31)
    with ((a + 2 ^ 31) mod 2 ^ 32 + b) by lia.
  rewrite Zplus_mod_idemp_l. f_equal. f_equal. lia.
Qed.

(** Masking with [PAGE_MASK] rounds an [unsigned long] down to a page. *)
Lemma land_PAGE_MASK y :
  0 <= y < 2 ^ 32 -> Z.land y PAGE_MASK = PAGE_SIZE * (y / PAGE_SIZE).
Proof.
  intros Hy.
  assert (HM : PAGE_MASK = Z.land (Z.lnot (Z.ones 12)) (Z.ones 32)).
  { rewrite Z.land_ones by lia. reflexivity. }
  rewrite HM, Z.land_assoc, (Z.land_comm y), <- Z.land_assoc.
  rewrite (Z.land_ones y) by lia. rewrite (Z.mod_small y) by exact Hy.
  rewrite Z.land_comm, <- Z.ldiff_land, Z.ldiff_ones_r by lia.
  rewrite Z.shiftl_mul_pow2, Z.shiftr_div_pow2 by lia.
  rewrite PAGE_SIZE_val. change (2 ^ 12) with 4096. lia.
Qed.

Lemma PAGE_ALIGN_eq x :
  PAGE_ALIGN x = PAGE_SIZE * (ulong (x + (PAGE_SIZE - 1)) / PAGE_SIZE).
Proof. unfold PAGE_ALIGN. apply land_PAGE_MASK, ulong_range. Qed.

Lemma PAGE_ALIGN_range x : 0 <= PAGE_ALIGN x < 2 ^ 32.
Proof.
  rewrite PAGE_ALIGN_eq, PAGE_SIZE_val.
  pose proof (ulong_range (x + (4096 - 1))) as H.
  pose proof (Z.mul_div_le (ulong (x + (4096 - 1))) 4096).
  assert (0 <= ulong (x + (4096 - 1)) / 4096) by (apply Z.div_pos; lia).
  lia.
Qed.

Lemma PAGE_ALIGN_pages x : PAGE_ALIGN x mod PAGE_SIZE = 0.
Proof.
  rewrite PAGE_ALIGN_eq, Z.mul_comm. apply Z.mod_mul.
  rewrite PAGE_SIZE_val. lia.
Qed.

(** Rounding up does not wrap below the last page of the address space. *)
Lemma PAGE_ALIGN_exact x :
  0 <= x <= 2 ^ 32 - PAGE_SIZE ->
  PAGE_ALIGN x = PAGE_SIZE * ((x + (PAGE_SIZE - 1)) / PAGE_SIZE).
Proof.
  rewrite PAGE_SIZE_val. intros H.
  rewrite PAGE_ALIGN_eq, PAGE_SIZE_val, ulong_small by lia. reflexivity.
Qed.

Lemma orders_cases o : In o orders -> o = 8 \/ o = 4 \/ o = 0.
Proof. unfold orders. simpl. intuition. Qed.

Lemma orders_descending : StronglySorted Z.gt orders /\ In 0 orders.
Proof.
  unfold orders. split.
  - repeat constructor; lia.
  - simpl. auto.
Qed.

Lemma order_to_index_found o :
  In o orders -> exists i, order_to_index o = Some i /\ nth i orders 0 = o.
Proof.
  intros H. destruct (orders_cases o H) as [-> | [-> | ->]].
  - exists 0%nat. split; reflexivity.
  - exists 1%nat. split; reflexivity.
  - exists 2%nat. split; reflexivity.
Qed.

Lemma pool_order_origin b o : In o orders -> pool_order (origin b o) = o.
Proof.
  intros H. unfold pool_order, origin. simpl.
  destruct (order_to_index_found o H) as [i [-> Hi]]. exact Hi.
Qed.

(** Each class is a whole number of pages, at least one, and its size is
    the same as [order_to_size] and as [(1 << order) * PAGE_SIZE]. *)
Lemma run_bytes_order o :
  In o orders ->
  run_bytes o = PAGE_SIZE * 2 ^ o /\ order_to_size o = run_bytes o /\
  uint (run_bytes o) = run_bytes o /\ get_order (uint (run_bytes o)) = o.
Proof.
  intros H. destruct (orders_cases o H) as [-> | [-> | ->]];
    repeat split; reflexivity.
Qed.

Lemma run_bytes_bounds o :
  In o orders -> PAGE_SIZE <= run_bytes o <= PAGE_SIZE * 2 ^ 8.
Proof.
  intros H. destruct (orders_cases o H) as [-> | [-> | ->]];
    vm_compute; split; discriminate.
Qed.

(** ** Traces of sequences *)

Lemma acquired_app t1 t2 : acquired (t1 ++ t2) = acquired t1 ++ acquired t2.
Proof. apply flat_map_app. Qed.

Lemma refused_app t1 t2 : refused (t1 ++ t2) = refused t1 ++ refused t2.
Proof. apply flat_map_app. Qed.

Lemma returned_app t1 t2 : returned (t1 ++ t2) = returned t1 ++ returned t2.
Proof. apply flat_map_app. Qed.

Lemma freed_app t1 t2 : freed (t1 ++ t2) = freed t1 ++ freed t2.
Proof. apply flat_map_app. Qed.

Lemma zeroed_app t1 t2 : zeroed (t1 ++ t2) = zeroed t1 ++ zeroed t2.
Proof. apply flat_map_app. Qed.

Create Rewrite HintDb trace.
#[local] Hint Rewrite acquired_app refused_app returned_app freed_app
  zeroed_app app_nil_r app_nil_l : trace.

(** ** The calls to the interface *)

Section Calls.
Context {W : Type} {K : Kernel W}.

Lemma post_kmalloc w (Q : result bool -> W -> list event -> Prop) :
  (forall r w', Q (Done r) w' []) -> post call_kmalloc w Q.
Proof.
  intros H. unfold post, call_kmalloc. destruct (kmalloc w). apply H.
Qed.

Lemma post_sg_alloc_table n w (Q : result Z -> W -> list event -> Prop) :
  (forall r w', Q (Done r) w' []) -> post (call_sg_alloc_table n) w Q.
Proof.
  intros H. unfold post, call_sg_alloc_table.
  destruct (sg_alloc_table n w). apply H.
Qed.

Lemma post_pool_alloc pool w
    (Q : result (option page_ptr) -> W -> list event -> Prop) :
  (forall r w', Q (Done r) w' [ev_pool_alloc pool r]) ->
  post (call_pool_alloc pool) w Q.
Proof.
  intros H. unfold post, call_pool_alloc.
  destruct (ion_page_pool_alloc pool w). apply H.
Qed.

Lemma post_pool_shrink pool gfp_mask n w
    (Q : result Z -> W -> list event -> Prop) :
  (forall r w', ion_page_pool_shrink pool gfp_mask n w = (r, w') ->
                Q (Done r) w' [ev_pool_shrink pool gfp_mask n r]) ->
  post (call_pool_shrink pool gfp_mask n) w Q.
Proof.
  intros H. unfold post, call_pool_shrink.
  destruct (ion_page_pool_shrink pool gfp_mask n w) eqn:E. apply H.
  reflexivity.
Qed.

Lemma post_alloc_pages gfp_mask ord w
    (Q : result (option page_ptr) -> W -> list event -> Prop) :
  (forall r w', Q (Done r) w' [ev_alloc_pages gfp_mask ord r]) ->
  post (call_alloc_pages gfp_mask ord) w Q.
Proof.
  intros H. unfold post, call_alloc_pages.
  destruct (alloc_pages gfp_mask ord w). apply H.
Qed.

(** ** One page run *)

Lemma alloc_buffer_page_spec b o w :
  In o orders ->
  post (alloc_buffer_page b o) w (fun r _ t =>
    exists pg, r = Done pg /\ t = [ev_pool_alloc (origin b o) pg]).
Proof.
  intros Ho. unfold alloc_buffer_page, order_to_index_or_BUG, origin, bank_of.
  destruct (order_to_index_found o Ho) as [i [-> _]].
  apply post_bind, post_ret, post_bind.
  destruct (ion_buffer_cached b); simpl.
  - apply post_pool_alloc. intros [pg | ] w'; apply post_ret; eauto.
  - apply post_pool_alloc. intros [pg | ] w'; apply post_ret; eauto.
Qed.

Lemma free_buffer_page_spec b pg o w :
  In o orders \/ shrinker_free b = true ->
  post (free_buffer_page b pg o) w (fun r _ t =>
    r = Done tt /\
    t = [if shrinker_free b then ev_free_pages pg o
         else ev_pool_free (origin b o) pg]).
Proof.
  intros Ho. unfold free_buffer_page, order_to_index_or_BUG, origin, bank_of.
  destruct (shrinker_free b).
  - unfold post, call_free_pages. auto.
  - destruct Ho as [Ho | Ho]; [ | discriminate].
    destruct (order_to_index_found o Ho) as [i [-> _]].
    apply post_bind, post_ret.
    destruct (ion_buffer_cached b); unfold post, call_pool_free; simpl; auto.
Qed.

(** The scan of the table of orders never reaches [BUG()], calls nothing
    but the pools, and either takes one run of a class that fits, or was
    refused by the pool of every class that fits. *)
Lemma alloc_largest_scan_spec tbl b size max_order w :
  incl tbl orders ->
  post (alloc_largest_scan tbl b size max_order) w (fun r _ t =>
    returned t = [] /\ freed t = [] /\ zeroed t = [] /\
    match r with
    | Done None =>
        acquired t = [] /\
        forall o, In o tbl -> order_to_size o <= size -> o <= max_order ->
                  In (origin b o) (refused t)
    | Done (Some info) =>
        In (order info) tbl /\ order_to_size (order info) <= size /\
        order info <= max_order /\
        acquired t = [(origin b (order info), page info)]
    | Stop _ => False
    end).
Proof.
  induction tbl as [ | o tbl IH] in w |- *; intros Hin.
  - apply post_ret. simpl. intuition.
  - assert (Ho : In o orders) by (apply Hin; left; reflexivity).
    assert (Hin' : incl tbl orders)
      by (intros x Hx; apply Hin; right; exact Hx).
    assert (Hskip : forall w,
      (size < order_to_size o \/ max_order < o) ->
      post (alloc_largest_scan tbl b size max_order) w (fun r _ t =>
        returned t = [] /\ freed t = [] /\ zeroed t = [] /\
        match r with
        | Done None =>
            acquired t = [] /\
            forall o', In o' (o :: tbl) -> order_to_size o' <= size ->
                       o' <= max_order -> In (origin b o') (refused t)
        | Done (Some info) =>
            In (order info) (o :: tbl) /\ order_to_size (order info) <= size /\
            order info <= max_order /\
            acquired t = [(origin b (order info), page info)]
        | Stop _ => False
        end)).
    { intros w0 Hs. eapply post_weaken; [apply IH; exact Hin' | ].
      intros r w' t (H1 & H2 & H3 & H4). repeat split; auto.
      destruct r as [[info | ] | f].
      - destruct H4 as (? & ? & ? & ?). repeat split; auto. right; auto.
      - destruct H4 as [Ha Hr]. split; [exact Ha | ].
        intros o' [<- | Ho'] Hsz Hmo; [lia | auto].
      - exact H4. }
    simpl. destruct (size <? order_to_size o) eqn:E1.
    { apply Hskip. left. apply Z.ltb_lt. exact E1. }
    destruct (max_order <? o) eqn:E2.
    { apply Hskip. right. apply Z.ltb_lt. exact E2. }
    apply Z.ltb_ge in E1. apply Z.ltb_ge in E2.
    apply post_bind. eapply post_weaken; [apply alloc_buffer_page_spec, Ho | ].
    intros r w1 t1 (pg & -> & ->). destruct pg as [pg | ].
    + apply post_ret. simpl. repeat split; auto.
    + eapply post_weaken; [apply IH; exact Hin' | ].
      intros r w' t (H1 & H2 & H3 & H4).
      autorewrite with trace. simpl. repeat split; auto.
      destruct r as [[info | ] | f].
      * destruct H4 as (? & ? & ? & ?). repeat split; auto.
      * destruct H4 as [Ha Hr]. split; [exact Ha | ].
        intros o' [<- | Ho'] Hsz Hmo; [left; reflexivity | right; auto].
      * exact H4.
Qed.

Lemma alloc_largest_available_spec b size max_order w :
  post (alloc_largest_available b size max_order) w (fun r _ t =>
    returned t = [] /\ freed t = [] /\ zeroed t = [] /\
    match r with
    | Done None => acquired t = []
    | Done (Some info) =>
        In (order info) orders /\ order_to_size (order info) <= size /\
        order info <= max_order /\
        acquired t = [(origin b (order info), page info)]
    | Stop _ => False
    end).
Proof.
  unfold alloc_largest_available. apply post_bind, post_kmalloc.
  intros [ | ] w1; cbn [negb].
  - eapply post_weaken; [apply alloc_largest_scan_spec, incl_refl | ].
    intros r w' t (H1 & H2 & H3 & H4). repeat split; auto.
    destruct r as [[info | ] | f]; [exact H4 | apply H4 | exact H4].
  - apply post_ret. simpl. auto.
Qed.

End Calls.

(** ** The assembly loop and the rollback *)

Section Assembly.
Context {W : Type} {K : Kernel W}.

Lemma total_length_cons sg t :
  total_length (sg :: t) = sg_length sg + total_length t.
Proof. reflexivity. Qed.

Lemma total_length_nonneg new :
  Forall (fun info => In (order info) orders) new ->
  0 <= total_length (map sg_of_info new).
Proof.
  induction 1 as [ | info new Ho _ IH]; simpl; [lia | ].
  destruct (run_bytes_order _ Ho) as (_ & _ & -> & _).
  pose proof (run_bytes_bounds _ Ho). rewrite PAGE_SIZE_val in *. lia.
Qed.

(** The loop on a remainder of [n] whole pages, with at least [n] steps
    allotted, ends; what it took is what its trace shows, in classes of
    the table, none larger than the one before, and of [n] pages in all
    when it ran to its end. *)
Lemma alloc_loop_spec fuel :
  forall b n max_order i pages (w : W),
  0 <= n < 2 ^ 20 -> (Z.to_nat n <= fuel)%nat ->
  0 <= i -> i + n < 2 ^ 31 ->
  post (alloc_loop fuel b (PAGE_SIZE * n) max_order i pages) w (fun r _ t =>
    exists finished new,
      r = Done (finished, pages ++ new, i + Z.of_nat (length new)) /\
      acquired t = taken b new /\
      returned t = [] /\ freed t = [] /\ zeroed t = [] /\
      Forall (fun info => In (order info) orders) new /\
      Sorted Z.ge (max_order :: map order new) /\
      total_length (map sg_of_info new) <= PAGE_SIZE * n /\
      (finished = true -> total_length (map sg_of_info new) = PAGE_SIZE * n)).
Proof.
  induction fuel as [ | fuel IH]; intros b n max_order i pages w Hn Hfuel Hi Hin.
  - assert (n = 0) by lia. subst n. apply post_ret.
    exists true, []. rewrite app_nil_r. simpl.
    rewrite Z.add_0_r. repeat split; auto; lia.
  - cbn [alloc_loop]. destruct (0 <? PAGE_SIZE * n) eqn:E.
    2:{ apply Z.ltb_ge in E. rewrite PAGE_SIZE_val in E.
        assert (n = 0) by lia. subst n. apply post_ret.
        exists true, []. rewrite app_nil_r. simpl.
        rewrite Z.add_0_r. repeat split; auto; lia. }
    apply Z.ltb_lt in E. rewrite PAGE_SIZE_val in E.
    apply post_bind.
    eapply post_weaken; [apply alloc_largest_available_spec | ].
    intros r w1 t1 (Hr & Hf & Hz & H). destruct r as [[info | ] | f].
    + destruct H as (Ho & Hsz & Hmo & Ha).
      destruct (run_bytes_order _ Ho) as (Hrb & Hos & Hu & _).
      pose proof (run_bytes_bounds _ Ho) as Hb.
      rewrite Hos, Hrb in Hsz. rewrite Hrb in Hb.
      assert (Hp : 1 <= 2 ^ order info <= n)
        by (rewrite PAGE_SIZE_val in *; lia).
      replace (ulong (PAGE_SIZE * n - run_bytes (order info)))
        with (PAGE_SIZE * (n - 2 ^ order info)).
      2:{ rewrite Hrb, ulong_small; rewrite PAGE_SIZE_val; lia. }
      rewrite (sint_small (i + 1)) by lia.
      eapply post_weaken; [apply IH; lia | ].
      intros r w2 t2 (fin & new & -> & Ha2 & Hr2 & Hf2 & Hz2 & Hall & Hs & Hle & Hfin).
      exists fin, (info :: new).
      autorewrite with trace. rewrite Ha, Ha2, Hr, Hr2, Hf, Hf2, Hz, Hz2.
      rewrite <- app_assoc. cbn [app map length taken].
      rewrite total_length_cons. cbn [sg_of_info sg_length]. rewrite Hu, Hrb.
      rewrite Nat2Z.inj_succ.
      replace (i + 1 + Z.of_nat (length new))
        with (i + Z.succ (Z.of_nat (length new))) by lia.
      repeat split; auto.
      * constructor; [exact Hs | constructor; lia].
      * lia.
      * intros Ht. specialize (Hfin Ht). lia.
    + apply post_ret. exists false, []. rewrite app_nil_r.
      autorewrite with trace. cbn [map length taken Z.of_nat].
      unfold total_length. cbn [fold_right]. rewrite Z.add_0_r.
      repeat split; auto; try lia; try discriminate.
      rewrite PAGE_SIZE_val. lia.
    + contradiction.
Qed.

Lemma rollback_each_spec b pages (w : W) :
  Forall (fun info => In (order info) orders) pages ->
  post (for_each (fun info => free_buffer_page b (page info) (order info))
          pages) w (fun r _ t =>
    r = Done tt /\ zeroed t = [] /\ given_back b pages t).
Proof.
  unfold given_back.
  induction 1 as [ | info pages Ho _ IH] in w |- *.
  - apply post_ret. simpl. destruct (shrinker_free b); auto.
  - cbn [for_each]. apply post_bind.
    eapply post_weaken; [apply free_buffer_page_spec; left; exact Ho | ].
    intros r w1 t1 [-> ->].
    eapply post_weaken; [apply IH | ].
    intros r w2 t2 (-> & Hz & Ha & H). autorewrite with trace.
    rewrite Ha, Hz. destruct (shrinker_free b); simpl;
      destruct H as [-> ->]; auto.
Qed.

Lemma alloc_rollback_spec b pages (w : W) :
  Forall (fun info => In (order info) orders) pages ->
  post (alloc_rollback b pages) w (fun r _ t =>
    r = Done (- ENOMEM, b) /\ zeroed t = [] /\ given_back b pages t).
Proof.
  intros H. unfold alloc_rollback. apply post_bind.
  eapply post_weaken; [apply rollback_each_spec, H | ].
  intros r w1 t1 (-> & Hz & Hg). apply post_ret.
  rewrite app_nil_r. auto.
Qed.

End Assembly.

(** ** [ion_system_heap_allocate] *)

Section Allocate.
Context {W : Type} {K : Kernel W}.

Lemma alloc_fuel_pages n : 0 <= n -> alloc_fuel (PAGE_SIZE * n) = Z.to_nat n.
Proof.
  intros Hn. unfold alloc_fuel, PAGE_SHIFT.
  rewrite Z.shiftr_div_pow2 by lia. rewrite PAGE_SIZE_val.
  change (2 ^ 12) with 4096. rewrite Z.mul_comm, Z.div_mul by lia.
  reflexivity.
Qed.

Lemma PAGE_ALIGN_count x :
  0 <= ulong (x + (PAGE_SIZE - 1)) / PAGE_SIZE < 2 ^ 20.
Proof.
  pose proof (ulong_range (x + (PAGE_SIZE - 1))) as H.
  rewrite PAGE_SIZE_val in *. split.
  - apply Z.div_pos; lia.
  - apply Z.div_lt_upper_bound; lia.
Qed.

(** Every call ends, without fault, in one of three ways: rejected for
    its alignment, rejected for its size, or [assembled]. *)
Lemma ion_system_heap_allocate_spec b size align flags (w : W) :
  post (ion_system_heap_allocate b size align flags) w (fun r w' t =>
    exists ret b', r = Done (ret, b') /\
      ((PAGE_SIZE < align /\ ret = - EINVAL /\ b' = b /\ t = [] /\ w' = w) \/
       (align <= PAGE_SIZE /\ totalram_pages w / 2 < size / PAGE_SIZE /\
        ret = - ENOMEM /\ b' = b /\ t = [] /\ w' = w) \/
       (align <= PAGE_SIZE /\ size / PAGE_SIZE <= totalram_pages w / 2 /\
        assembled b size ret b' t))).
Proof.
  unfold ion_system_heap_allocate.
  destruct (PAGE_SIZE <? align) eqn:Ealign.
  { apply Z.ltb_lt in Ealign. apply post_ret.
    exists (- EINVAL), b. split; [reflexivity | left; auto]. }
  apply Z.ltb_ge in Ealign. apply post_bind.
  unfold post at 1, read_totalram_pages.
  destruct (totalram_pages w / 2 <? size / PAGE_SIZE) eqn:Esize.
  { apply Z.ltb_lt in Esize. apply post_ret.
    exists (- ENOMEM), b. split; [reflexivity | right; left].
    repeat split; auto. }
  apply Z.ltb_ge in Esize. apply post_bind.
  rewrite (PAGE_ALIGN_eq size).
  pose proof (PAGE_ALIGN_count size) as Hn.
  set (n := ulong (size + (PAGE_SIZE - 1)) / PAGE_SIZE) in *.
  rewrite alloc_fuel_pages by lia.
  eapply post_weaken; [apply alloc_loop_spec; lia | ].
  intros r w1 t1 (fin & new & -> & Ha & Hr & Hf & Hz & Hall & Hs & Hle & Hfin).
  cbn [app]. apply Sorted_inv in Hs. destruct Hs as [Hs _].
  assert (Hroll : forall w2,
    post (alloc_rollback b new) w2 (fun r w' t2 =>
      exists ret b', r = Done (ret, b') /\
        ((PAGE_SIZE < align /\ ret = - EINVAL /\ b' = b /\
          [] ++ t1 ++ t2 = [] /\ w' = w) \/
         (align <= PAGE_SIZE /\ totalram_pages w / 2 < size / PAGE_SIZE /\
          ret = - ENOMEM /\ b' = b /\ [] ++ t1 ++ t2 = [] /\ w' = w) \/
         (align <= PAGE_SIZE /\ size / PAGE_SIZE <= totalram_pages w / 2 /\
          assembled b size ret b' ([] ++ t1 ++ t2))))).
  { intros w2. eapply post_weaken; [apply alloc_rollback_spec, Hall | ].
    intros r w' t2 (-> & Hz2 & Hg).
    exists (- ENOMEM), b. split; [reflexivity | right; right].
    repeat split; auto. exists new, t1, t2.
    autorewrite with trace. rewrite Hz, Hz2, (PAGE_ALIGN_eq size).
    repeat split; auto. }
  destruct fin; cbn [negb].
  2:{ apply Hroll. }
  apply post_bind, post_kmalloc. intros [ | ] w2; cbn [negb].
  2:{ eapply post_weaken; [apply Hroll | ].
      intros r w' t2 H. exact H. }
  apply post_bind, post_sg_alloc_table. intros r w3.
  destruct (r =? 0); cbn [negb].
  { apply post_ret.
    exists 0, (set_priv_virt b (map sg_of_info new)).
    split; [reflexivity | right; right].
    repeat split; auto. exists new, t1, [].
    autorewrite with trace. rewrite (PAGE_ALIGN_eq size).
    repeat split; auto. left. repeat split; auto. }
  eapply post_weaken; [apply Hroll | ].
  intros r' w' t2 H. exact H.
Qed.

End Allocate.

(** ** [ion_system_heap_free] *)

Section Free.
Context {W : Type} {K : Kernel W}.

Lemma free_each_spec b table (w : W) :
  (shrinker_free b = false ->
   Forall (fun sg => In (get_order (sg_length sg)) orders) table) ->
  post (for_each (fun sg => free_buffer_page b (sg_page sg)
                              (get_order (sg_length sg))) table) w
    (fun r _ t => r = Done tt /\ t = map (release_event b) table).
Proof.
  induction table as [ | sg table IH] in w |- *; intros Hwf.
  - apply post_ret. auto.
  - cbn [for_each]. apply post_bind.
    eapply post_weaken.
    { apply free_buffer_page_spec. destruct (shrinker_free b) eqn:E.
      - right. reflexivity.
      - left. specialize (Hwf eq_refl). inversion Hwf. assumption. }
    intros r w1 t1 [-> ->].
    eapply post_weaken.
    { apply IH. intros E. specialize (Hwf E). inversion Hwf. assumption. }
    intros r w2 t2 [-> ->]. split; [reflexivity | ].
    unfold release_event. reflexivity.
Qed.

Lemma ion_system_heap_free_spec b table (w : W) :
  sg_table b = Some table ->
  (shrinker_free b = false ->
   Forall (fun sg => In (get_order (sg_length sg)) orders) table) ->
  post (ion_system_heap_free b) w (fun r _ t =>
    r = Done tt /\
    t = (if shrinker_free b then [] else [ev_buffer_zero (Some table)]) ++
        map (release_event b) table).
Proof.
  intros Htable Hwf. unfold ion_system_heap_free. rewrite Htable.
  apply post_bind.
  assert (Hzero :
    post (if negb (shrinker_free b) then call_buffer_zero b else ret tt) w
      (fun r _ t => r = Done tt /\
         t = if shrinker_free b then [] else [ev_buffer_zero (Some table)])).
  { destruct (shrinker_free b); cbn [negb].
    - apply post_ret. auto.
    - unfold post, call_buffer_zero. rewrite Htable. auto. }
  eapply post_weaken; [exact Hzero | ].
  intros r w1 t1 [-> ->].
  eapply post_weaken; [apply free_each_spec, Hwf | ].
  intros r w2 t2 [-> ->]. auto.
Qed.

End Free.

(** ** [ion_system_heap_shrink] *)

Section Shrink.
Context {W : Type} {K : Kernel W}.

Lemma drains_app t1 t2 : drains (t1 ++ t2) = drains t1 ++ drains t2.
Proof. apply flat_map_app. Qed.

Lemma drain_order_from i n :
  flat_map (fun i => [(uncached_pools, i); (cached_pools, i)]) (seq i (S n)) =
  (uncached_pools, i) :: (cached_pools, i) ::
  flat_map (fun i => [(uncached_pools, i); (cached_pools, i)]) (seq (S i) n).
Proof. reflexivity. Qed.

(** The first loop follows the protocol [drained] and ends. *)
Lemma shrink_drain_spec n :
  forall i gfp_mask nr_to_scan nr_freed (w : W),
  nr_to_scan <> 0 -> nr_freed < nr_to_scan ->
  post (shrink_drain n i gfp_mask nr_to_scan nr_freed) w (fun r _ t =>
    (exists nr_freed', r = Done nr_freed') /\
    drained nr_to_scan nr_freed
      (flat_map (fun i => [(uncached_pools, i); (cached_pools, i)]) (seq i n))
      (drains t)).
Proof.
  induction n as [ | n IH]; intros i gfp_mask nr_to_scan nr_freed w Hnz Hlt.
  - apply post_ret. split; [eauto | ]. constructor. right. reflexivity.
  - rewrite drain_order_from. cbn [shrink_drain].
    assert (Hn : (nr_to_scan =? 0) = false) by (apply Z.eqb_neq; exact Hnz).
    apply post_bind, post_pool_shrink. intros r1 w1 _.
    destruct (nr_to_scan <=? sint (nr_freed + r1)) eqn:E1.
    { apply post_ret. split; [eauto | ]. cbn. rewrite Hn. cbn.
      apply drained_ask; [exact Hlt | ].
      constructor. left. apply Z.leb_le. exact E1. }
    apply Z.leb_gt in E1.
    apply post_bind, post_pool_shrink. intros r2 w2 _.
    destruct (nr_to_scan <=? sint (sint (nr_freed + r1) + r2)) eqn:E2.
    { apply post_ret. split; [eauto | ]. cbn. rewrite Hn. cbn.
      apply drained_ask; [exact Hlt | ].
      apply drained_ask; [exact E1 | ].
      constructor. left. apply Z.leb_le. exact E2. }
    apply Z.leb_gt in E2.
    eapply post_weaken; [apply IH; [exact Hnz | exact E2] | ].
    intros r w3 t3 [Hr Hd]. split; [exact Hr | ].
    cbn. rewrite Hn. cbn.
    apply drained_ask; [exact Hlt | ].
    apply drained_ask; [exact E1 | ]. exact Hd.
Qed.

(** The loop after [end:] asks for nothing but inventories, and ends. *)
Lemma shrink_inventory_spec n :
  forall i gfp_mask nr_total (w : W),
  post (shrink_inventory n i gfp_mask nr_total) w (fun r _ t =>
    (exists nr_total', r = Done nr_total') /\ drains t = []).
Proof.
  induction n as [ | n IH]; intros i gfp_mask nr_total w.
  - apply post_ret. split; [eauto | reflexivity].
  - cbn [shrink_inventory].
    apply post_bind, post_pool_shrink. intros r1 w1 _.
    apply post_bind, post_pool_shrink. intros r2 w2 _.
    eapply post_weaken; [apply IH | ].
    intros r w3 t3 [Hr Hd]. split; [exact Hr | ].
    cbn. exact Hd.
Qed.

(** With pools that answer inventories as the specification has it, the
    inventory pass leaves the world as it is and answers the pages
    resident in it. *)
Lemma shrink_inventory_resident {I : PoolInventory W} gfp_mask (w : W) :
  shrink_inventory num_orders 0 gfp_mask 0 w =
  (Done (sint (total_resident w)), w, inventory_trace gfp_mask w).
Proof.
  unfold inventory_trace, total_resident, drain_order, num_orders, orders.
  cbn [length shrink_inventory seq flat_map app map fold_right].
  unfold bind, call_pool_shrink, ret.
  repeat (rewrite shrink_zero; cbv beta iota).
  repeat first [rewrite sint_add_l | rewrite <- Z.add_assoc]. cbn [app].
  match goal with
  | |- (Done (sint ?a), _, _) = (Done (sint ?b), _, _) =>
      replace a with b by lia
  end.
  reflexivity.
Qed.

End Shrink.

(** ** [ion_system_contig_heap_allocate] *)

Section Contig.
Context {W : Type} {K : Kernel W}.

Lemma get_order_range len : 0 <= get_order len <= 20.
Proof.
  unfold get_order, fls, PAGE_SHIFT.
  pose proof (ulong_range (len - 1)) as H.
  rewrite Z.shiftr_div_pow2 by lia. change (2 ^ 12) with 4096.
  assert (Hq : 0 <= ulong (len - 1) / 4096 < 2 ^ 20).
  { split; [apply Z.div_pos; lia | apply Z.div_lt_upper_bound; lia]. }
  destruct (ulong (len - 1) / 4096 <=? 0) eqn:E; [lia | ].
  apply Z.leb_gt in E.
  pose proof (Z.log2_nonneg (ulong (len - 1) / 4096)).
  assert (Z.log2 (ulong (len - 1) / 4096) < 20)
    by (apply Z.log2_lt_pow2; lia).
  lia.
Qed.

(** [1 << order], as [int] and as [unsigned long], for the orders that
    [get_order] can answer. *)
Lemma shift_order o :
  0 <= o <= 20 -> ulong (sint (Z.shiftl 1 o)) = 2 ^ o.
Proof.
  intros Ho. rewrite Z.shiftl_mul_pow2, Z.mul_1_l by lia.
  assert (0 < 2 ^ o <= 2 ^ 20).
  { split; [apply Z.pow_pos_nonneg; lia | apply Z.pow_le_mono_r; lia]. }
  rewrite sint_small, ulong_small; lia.
Qed.

Lemma In_range i from n :
  In i (range from n) <-> from <= i < from + Z.of_nat n.
Proof.
  induction n as [ | n IH] in from |- *.
  - simpl. lia.
  - cbn [range In]. rewrite IH, Nat2Z.inj_succ. lia.
Qed.

Lemma free_pages_each_spec pg l (w : W) :
  post (for_each (fun i => call_free_page (pg + i)) l) w (fun r _ t =>
    r = Done tt /\ t = map (fun i => ev_free_pages (pg + i) 0) l).
Proof.
  induction l as [ | i l IH] in w |- *.
  - apply post_ret. auto.
  - cbn [for_each]. apply post_bind. unfold post at 1.
    unfold call_free_page, call_free_pages.
    eapply post_weaken; [apply IH | ].
    intros r w1 t1 [-> ->]. auto.
Qed.

(** Every call ends in one of four ways: rejected for its alignment, out
    of pages, done with the run trimmed to its page-aligned length, or
    failed with the run released whole. *)
Lemma ion_system_contig_heap_allocate_spec b len align flags (w : W) :
  let order := get_order len in
  let first := Z.shiftr (PAGE_ALIGN len) PAGE_SHIFT in
  post (ion_system_contig_heap_allocate b len align flags) w (fun r _ t =>
    exists ret b', r = Done (ret, b') /\
      ((ulong (Z.shiftl PAGE_SIZE order) < align /\ ret = - EINVAL /\
        b' = b /\ t = []) \/
       (align <= ulong (Z.shiftl PAGE_SIZE order) /\ ret = - ENOMEM /\
        b' = b /\ t = [ev_alloc_pages low_order_gfp_flags order None]) \/
       (exists pg,
          let run := [ev_alloc_pages low_order_gfp_flags order (Some pg);
                      ev_split_page pg order] in
          let trimmed := map (fun i => ev_free_pages (pg + i) 0)
                           (range first (Z.to_nat (2 ^ order - first))) in
          align <= ulong (Z.shiftl PAGE_SIZE order) /\
          ((ret = 0 /\
            b' = set_priv_virt b [mk_sg pg (PAGE_ALIGN len) 0] /\
            t = run ++ trimmed ++ [ev_sync_for_device pg (PAGE_ALIGN len)]) \/
           (ret <> 0 /\ b' = b /\
            t = run ++ trimmed ++
                map (fun i => ev_free_pages (pg + i) 0)
                  (range 0 (Z.to_nat first))))))).
Proof.
  intros order first. unfold ion_system_contig_heap_allocate.
  fold order. fold first.
  destruct (ulong (Z.shiftl PAGE_SIZE order) <? align) eqn:Ealign.
  { apply Z.ltb_lt in Ealign. apply post_ret.
    exists (- EINVAL), b. split; [reflexivity | left]. repeat split; auto. }
  apply Z.ltb_ge in Ealign.
  apply post_bind, post_alloc_pages. intros [pg | ] w1.
  2:{ apply post_ret. exists (- ENOMEM), b.
      split; [reflexivity | right; left]. repeat split; auto. }
  apply post_bind. unfold post at 1, call_split_page.
  apply post_bind. rewrite (shift_order order (get_order_range len)).
  eapply post_weaken; [apply free_pages_each_spec | ].
  intros r w2 t2 [-> ->].
  assert (Hout : forall rv w3, rv <> 0 ->
    post (for_each (fun i => call_free_page (pg + i))
            (range 0 (Z.to_nat first)) ;; ret (rv, b)) w3
      (fun r _ t3 => exists b', r = Done (rv, b') /\ b' = b /\
         t3 = map (fun i => ev_free_pages (pg + i) 0)
                (range 0 (Z.to_nat first)))).
  { intros ret0 w3 _. apply post_bind.
    eapply post_weaken; [apply free_pages_each_spec | ].
    intros r w4 t4 [-> ->]. apply post_ret.
    exists b. rewrite app_nil_r. auto. }
  apply post_bind, post_kmalloc. intros [ | ] w3; cbn [negb].
  2:{ eapply post_weaken; [apply (Hout (- ENOMEM)); discriminate | ].
      intros r w4 t4 (b' & -> & -> & ->).
      exists (- ENOMEM), b. split; [reflexivity | right; right].
      exists pg. cbn zeta. split; [exact Ealign | right].
      split; [discriminate | split; reflexivity]. }
  apply post_bind, post_sg_alloc_table. intros r w4.
  destruct (r =? 0) eqn:Er; cbn [negb].
  2:{ apply Z.eqb_neq in Er.
      eapply post_weaken; [apply (Hout r); exact Er | ].
      intros r' w5 t5 (b' & -> & -> & ->).
      exists r, b. split; [reflexivity | right; right].
      exists pg. cbn zeta. split; [exact Ealign | right].
      split; [exact Er | split; reflexivity]. }
  apply post_bind. unfold post at 1, call_sync_for_device.
  apply post_ret.
  exists 0, (set_priv_virt b [mk_sg pg (PAGE_ALIGN len) 0]).
  rewrite (uint_small (PAGE_ALIGN len)) by apply PAGE_ALIGN_range.
  split; [reflexivity | right; right].
  exists pg. cbn zeta. split; [exact Ealign | left].
  split; [reflexivity | split; reflexivity].
Qed.

End Contig.

(** ** The table of a buffer and the trace of its assembly *)

Lemma taken_freed b new :
  Forall (fun info => In (order info) orders) new ->
  map (fun a => (snd a, pool_order (fst a))) (taken b new) =
  map (fun info => (page info, order info)) new.
Proof.
  intros H. unfold taken. rewrite map_map. apply map_ext_in.
  intros info Hin. cbn [fst snd]. rewrite pool_order_origin; [reflexivity | ].
  rewrite Forall_forall in H. apply H, Hin.
Qed.

Lemma taken_orders b new :
  Forall (fun info => In (order info) orders) new ->
  map (fun a => pool_order (fst a)) (taken b new) = map order new.
Proof.
  intros H. unfold taken. rewrite map_map. apply map_ext_in.
  intros info Hin. cbn [fst]. apply pool_order_origin.
  rewrite Forall_forall in H. apply H, Hin.
Qed.

Lemma table_pages b new :
  map sg_page (map sg_of_info new) = map snd (taken b new).
Proof. unfold taken. rewrite !map_map. reflexivity. Qed.

Lemma table_lengths b new :
  Forall (fun info => In (order info) orders) new ->
  map sg_length (map sg_of_info new) =
  map (fun a => PAGE_SIZE * 2 ^ pool_order (fst a)) (taken b new).
Proof.
  intros H. unfold taken. rewrite !map_map. apply map_ext_in.
  intros info Hin. cbn [fst sg_of_info sg_length].
  rewrite Forall_forall in H. specialize (H info Hin).
  rewrite pool_order_origin by exact H.
  destruct (run_bytes_order _ H) as (Hrb & _ & -> & _). exact Hrb.
Qed.

Lemma table_orders new :
  Forall (fun info => In (order info) orders) new ->
  map (fun sg => get_order (sg_length sg)) (map sg_of_info new) =
  map order new.
Proof.
  intros H. rewrite map_map. apply map_ext_in.
  intros info Hin. cbn [sg_of_info sg_length].
  rewrite Forall_forall in H. specialize (H info Hin).
  destruct (run_bytes_order _ H) as (_ & _ & _ & Hg). exact Hg.
Qed.

(** ** The properties of the specification *)

(** C1. A call of [ion_system_heap_allocate] that fails after it took
    pages from the pools answers [-ENOMEM], whatever made it fail, and
    leaves the buffer without a table.  Every page it took is given back
    once, after the last one was taken: to the pool it came from, or, for
    a buffer marked [ION_PRIV_FLAG_SHRINKER_FREE], to the page allocator
    at the order of that pool. *)
Theorem allocate_failure_gives_back_every_page {W} {K : Kernel W}
    (b : ion_buffer) (size align flags : Z) (w : W) rv b' w' t :
  ion_system_heap_allocate b size align flags w = (Done (rv, b'), w', t) ->
  rv <> 0 ->
  acquired t <> [] ->
  rv = - ENOMEM /\ b' = b /\
  (exists t1 t2, t = t1 ++ t2 /\
     returned t1 = [] /\ freed t1 = [] /\ acquired t2 = []) /\
  if shrinker_free b then
    returned t = [] /\
    freed t = map (fun a => (snd a, pool_order (fst a))) (acquired t)
  else
    returned t = acquired t /\ freed t = [].
Proof.
  intros Hrun Hfail Hk.
  pose proof (ion_system_heap_allocate_spec b size align flags w) as H.
  rewrite post_run in H. specialize (H _ _ _ Hrun).
  destruct H as (rv0 & b0 & Heq & H). injection Heq as <- <-.
  destruct H as [(_ & _ & _ & -> & _) | [(_ & _ & _ & _ & -> & _) | H]];
    [contradiction Hk; reflexivity | contradiction Hk; reflexivity | ].
  destruct H as (_ & _ & new & t1 & t2 & -> & Ha & Hr & Hf & _ & Hall & _ & _ & H).
  destruct H as [(-> & _) | (-> & -> & Ha2 & Hg)]; [contradiction Hfail; reflexivity | ].
  split; [reflexivity | split; [reflexivity | split]].
  - exists t1, t2. auto.
  - autorewrite with trace. rewrite Ha, Ha2, Hr, Hf, app_nil_r.
    destruct (shrinker_free b); destruct Hg as [-> ->].
    + split; [reflexivity | ]. symmetry. apply taken_freed, Hall.
    + split; reflexivity.
Qed.

Lemma allocate_failure_gives_back_every_page_witness :
  let t := [ev_pool_alloc (uncached_pools, 2%nat) (Some 1);
            ev_pool_alloc (uncached_pools, 2%nat) (Some 2);
            ev_pool_alloc (uncached_pools, 2%nat) None;
            ev_pool_free (uncached_pools, 2%nat) 1;
            ev_pool_free (uncached_pools, 2%nat) 2] in
  ion_system_heap_allocate uncached_buffer 12288 4096 0 sim_scarce =
    (Done (- ENOMEM, uncached_buffer), sim_scarce, t) /\
  - ENOMEM <> 0 /\
  acquired t <> [] /\
  returned t = acquired t /\ freed t = [].
Proof.
  intros t.
  assert (Hrun : ion_system_heap_allocate uncached_buffer 12288 4096 0
                   sim_scarce = (Done (- ENOMEM, uncached_buffer), sim_scarce, t))
    by (vm_compute; reflexivity).
  assert (Hfail : - ENOMEM <> 0) by discriminate.
  assert (Hk : acquired t <> []) by discriminate.
  split; [exact Hrun | split; [exact Hfail | split; [exact Hk | ]]].
  exact (proj2 (proj2 (proj2
    (allocate_failure_gives_back_every_page _ _ _ _ _ _ _ _ _ Hrun Hfail Hk)))).
Defined.

(** C3, as amended.  [ion_system_heap_allocate] answers [-EINVAL] exactly
    when the alignment is more than a page.  With an alignment of at most
    a page, it answers [-ENOMEM], asking no pool for a page, when the
    size in whole pages, [size / PAGE_SIZE] rounded down, is more than
    [totalram_pages / 2]. *)
Theorem allocate_guards {W} {K : Kernel W}
    (b : ion_buffer) (size align flags : Z) (w : W) r w' t :
  ion_system_heap_allocate b size align flags w = (r, w', t) ->
  ((exists b', r = Done (- EINVAL, b')) <-> PAGE_SIZE < align) /\
  (align <= PAGE_SIZE ->
   totalram_pages w / 2 < size / PAGE_SIZE ->
   r = Done (- ENOMEM, b) /\ t = [] /\ w' = w).
Proof.
  intros Hrun.
  pose proof (ion_system_heap_allocate_spec b size align flags w) as H.
  rewrite post_run in H. specialize (H _ _ _ Hrun).
  destruct H as (rv & b0 & -> & H). split; [split | ].
  - intros [b1 Heq]. injection Heq as -> _.
    destruct H as [(Ha & _) | [(_ & _ & Hrv & _) | (_ & _ & new & t1 & t2 & H)]].
    + exact Ha.
    + discriminate Hrv.
    + destruct H as (_ & _ & _ & _ & _ & _ & _ & _ & [(Hrv & _) | (Hrv & _)]);
        discriminate Hrv.
  - intros Ha. destruct H as [(_ & -> & _) | [(Hle & _) | (Hle & _)]];
      [eauto | lia | lia].
  - intros Hle Hsz.
    destruct H as [(Ha & _) | [(_ & _ & -> & -> & -> & ->) | (_ & Hsz' & _)]];
      [lia | auto | lia].
Qed.

Lemma allocate_guards_witness :
  ion_system_heap_allocate uncached_buffer (5 * PAGE_SIZE) PAGE_SIZE 0
    sim_small = (Done (- ENOMEM, uncached_buffer), sim_small, []) /\
  ((exists b', Done (- ENOMEM, uncached_buffer) = Done (- EINVAL, b')) <->
   PAGE_SIZE < PAGE_SIZE) /\
  (PAGE_SIZE <= PAGE_SIZE ->
   totalram_pages sim_small / 2 < 5 * PAGE_SIZE / PAGE_SIZE ->
   Done (- ENOMEM, uncached_buffer) = Done (- ENOMEM, uncached_buffer) /\
   @nil event = [] /\ sim_small = sim_small).
Proof.
  assert (Hrun : ion_system_heap_allocate uncached_buffer (5 * PAGE_SIZE)
                   PAGE_SIZE 0 sim_small =
                 (Done (- ENOMEM, uncached_buffer), sim_small, []))
    by (vm_compute; reflexivity).
  split; [exact Hrun | ].
  exact (allocate_guards _ _ _ _ _ _ _ _ Hrun).
Defined.

(** C3, as the specification has it, fails: with 32 MiB of memory a
    request of 16 MiB and one byte, 4097 pages once rounded up, is more
    than half of memory, and yet it is served, with sixteen runs of
    order 8 and one page. *)
Lemma allocate_size_guard_counterexample :
  ~ (forall r w' t,
       ion_system_heap_allocate uncached_buffer 16777217 PAGE_SIZE 0
         sim_roomy = (r, w', t) ->
       ((exists b', r = Done (- EINVAL, b')) <-> PAGE_SIZE < PAGE_SIZE) /\
       (totalram_pages sim_roomy * PAGE_SIZE / 2 < PAGE_ALIGN 16777217 ->
        (exists b', r = Done (- ENOMEM, b')) /\ acquired t = [])).
Proof.
  intros H.
  pose (run := ion_system_heap_allocate uncached_buffer 16777217 PAGE_SIZE 0
                 sim_roomy).
  assert (Hrun : run = (fst (fst run), snd (fst run), snd run))
    by (destruct run as [[r w'] t]; reflexivity).
  destruct (H _ _ _ Hrun) as [_ H2].
  assert (Hhalf : totalram_pages sim_roomy * PAGE_SIZE / 2
                  < PAGE_ALIGN 16777217)
    by (vm_compute; reflexivity).
  destruct (H2 Hhalf) as [_ Hacq].
  vm_compute in Hacq. discriminate Hacq.
Qed.

(** C5. A call of [ion_system_heap_allocate] that succeeds leaves a table
    that lists the runs it took from the pools, in the order in which it
    took them and each with the length of its class; the lengths add up
    to at least [PAGE_ALIGN(size)] and to less than that plus the size of
    the largest class, and so to at least [size] wherever rounding
    [size] up to a page does not wrap. *)
Theorem allocate_covers_size {W} {K : Kernel W}
    (b : ion_buffer) (size align flags : Z) (w : W) b' w' t :
  0 < size ->
  align <= PAGE_SIZE ->
  ion_system_heap_allocate b size align flags w = (Done (0, b'), w', t) ->
  exists table,
    priv_virt b' = Some table /\
    map sg_page table = map snd (acquired t) /\
    map sg_length table =
      map (fun a => PAGE_SIZE * 2 ^ pool_order (fst a)) (acquired t) /\
    PAGE_ALIGN size <= total_length table <
      PAGE_ALIGN size + PAGE_SIZE * 2 ^ nth 0 orders 0 /\
    (size <= 2 ^ 32 - PAGE_SIZE -> size <= total_length table).
Proof.
  intros Hsize _ Hrun.
  pose proof (ion_system_heap_allocate_spec b size align flags w) as H.
  rewrite post_run in H. specialize (H _ _ _ Hrun).
  destruct H as (rv0 & b0 & Heq & H). injection Heq as <- <-.
  destruct H as [(_ & Hrv & _) | [(_ & _ & Hrv & _) | H]];
    [discriminate Hrv | discriminate Hrv | ].
  destruct H as (_ & _ & new & t1 & t2 & -> & Ha & _ & _ & _ & Hall & _ & _ & H).
  destruct H as [(_ & -> & -> & Htotal) | (Hrv & _)]; [ | discriminate Hrv].
  exists (map sg_of_info new). rewrite app_nil_r, Ha.
  split; [reflexivity | split; [apply table_pages | split; [ | split]]].
  - apply table_lengths, Hall.
  - rewrite Htotal.
    assert (0 < PAGE_SIZE * 2 ^ nth 0 orders 0) by reflexivity. lia.
  - intros Hfits. rewrite Htotal, PAGE_ALIGN_exact by lia.
    rewrite PAGE_SIZE_val in *.
    pose proof (Z.div_mod (size + (4096 - 1)) 4096).
    pose proof (Z.mod_pos_bound (size + (4096 - 1)) 4096). lia.
Qed.

Lemma allocate_covers_size_witness :
  let table := [mk_sg 100 65536 0; mk_sg 1 4096 0; mk_sg 2 4096 0;
                mk_sg 3 4096 0] in
  let t := [ev_pool_alloc (uncached_pools, 1%nat) (Some 100);
            ev_pool_alloc (uncached_pools, 2%nat) (Some 1);
            ev_pool_alloc (uncached_pools, 2%nat) (Some 2);
            ev_pool_alloc (uncached_pools, 2%nat) (Some 3)] in
  let w' := mk_sim 8192 [] [[]; []; [4; 5; 6]] [[5000]; []; []] 10000 in
  0 < 73729 /\ 4096 <= PAGE_SIZE /\
  ion_system_heap_allocate uncached_buffer 73729 4096 0 sim_stocked =
    (Done (0, set_priv_virt uncached_buffer table), w', t) /\
  exists table',
    priv_virt (set_priv_virt uncached_buffer table) = Some table' /\
    map sg_page table' = map snd (acquired t) /\
    map sg_length table' =
      map (fun a => PAGE_SIZE * 2 ^ pool_order (fst a)) (acquired t) /\
    PAGE_ALIGN 73729 <= total_length table' <
      PAGE_ALIGN 73729 + PAGE_SIZE * 2 ^ nth 0 orders 0 /\
    (73729 <= 2 ^ 32 - PAGE_SIZE -> 73729 <= total_length table').
Proof.
  intros table t w'.
  assert (Hsize : 0 < 73729) by reflexivity.
  assert (Halign : 4096 <= PAGE_SIZE) by discriminate.
  assert (Hrun : ion_system_heap_allocate uncached_buffer 73729 4096 0
                   sim_stocked =
                 (Done (0, set_priv_virt uncached_buffer table), w', t))
    by (vm_compute; reflexivity).
  split; [exact Hsize | split; [exact Halign | split; [exact Hrun | ]]].
  exact (allocate_covers_size _ _ _ _ _ _ _ _ Hsize Halign Hrun).
Defined.

(** C6. In the table a successful [ion_system_heap_allocate] leaves, the
    orders of the segments never go up, as the orders of the pools the
    runs were taken from never go up: no run is taken from a class above
    that of the run before it. *)
Theorem allocate_orders_never_go_up {W} {K : Kernel W}
    (b : ion_buffer) (size align flags : Z) (w : W) b' w' t :
  ion_system_heap_allocate b size align flags w = (Done (0, b'), w', t) ->
  exists table,
    priv_virt b' = Some table /\
    Sorted Z.ge (map (fun sg => get_order (sg_length sg)) table) /\
    Sorted Z.ge (map (fun a => pool_order (fst a)) (acquired t)).
Proof.
  intros Hrun.
  pose proof (ion_system_heap_allocate_spec b size align flags w) as H.
  rewrite post_run in H. specialize (H _ _ _ Hrun).
  destruct H as (rv0 & b0 & Heq & H). injection Heq as <- <-.
  destruct H as [(_ & Hrv & _) | [(_ & _ & Hrv & _) | H]];
    [discriminate Hrv | discriminate Hrv | ].
  destruct H as (_ & _ & new & t1 & t2 & -> & Ha & _ & _ & _ & Hall & Hs & _ & H).
  destruct H as [(_ & -> & -> & _) | (Hrv & _)]; [ | discriminate Hrv].
  exists (map sg_of_info new). rewrite app_nil_r, Ha.
  rewrite table_orders, taken_orders by exact Hall. auto.
Qed.

Lemma allocate_orders_never_go_up_witness :
  let table := [mk_sg 100 65536 0; mk_sg 1 4096 0; mk_sg 2 4096 0;
                mk_sg 3 4096 0] in
  let t := [ev_pool_alloc (uncached_pools, 1%nat) (Some 100);
            ev_pool_alloc (uncached_pools, 2%nat) (Some 1);
            ev_pool_alloc (uncached_pools, 2%nat) (Some 2);
            ev_pool_alloc (uncached_pools, 2%nat) (Some 3)] in
  let w' := mk_sim 8192 [] [[]; []; [4; 5; 6]] [[5000]; []; []] 10000 in
  ion_system_heap_allocate uncached_buffer 73729 4096 0 sim_stocked =
    (Done (0, set_priv_virt uncached_buffer table), w', t) /\
  exists table',
    priv_virt (set_priv_virt uncached_buffer table) = Some table' /\
    Sorted Z.ge (map (fun sg => get_order (sg_length sg)) table') /\
    Sorted Z.ge (map (fun a => pool_order (fst a)) (acquired t)).
Proof.
  intros table t w'.
  assert (Hrun : ion_system_heap_allocate uncached_buffer 73729 4096 0
                   sim_stocked =
                 (Done (0, set_priv_virt uncached_buffer table), w', t))
    by (vm_compute; reflexivity).
  split; [exact Hrun | ].
  exact (allocate_orders_never_go_up _ _ _ _ _ _ _ _ Hrun).
Defined.

(** C9. [ion_system_heap_allocate] ends on every input, within the steps
    allotted to its loop.  A turn of the loop that takes a run takes one
    of a class of the table, of at least one page and at most the
    remainder, so that the remainder goes down and does not wrap; a turn
    that takes none ends the loop as failed.  The table of orders goes
    strictly down to order 0, and the class of order 0 fits every
    remainder of a
    page or more: the scan comes back empty-handed only when the pool of
    that class was asked and had no page. *)
Theorem allocate_terminates {W} {K : Kernel W}
    (b : ion_buffer) (size align flags : Z) (w : W) :
  (exists rv b' w' t,
     ion_system_heap_allocate b size align flags w = (Done (rv, b'), w', t)) /\
  (forall size_remaining max_order w1 info w2 t,
     0 <= size_remaining < 2 ^ 32 ->
     alloc_largest_available b size_remaining max_order w1 =
       (Done (Some info), w2, t) ->
     In (order info) orders /\
     PAGE_SIZE <= run_bytes (order info) <= size_remaining /\
     ulong (size_remaining - run_bytes (order info)) =
       size_remaining - run_bytes (order info) /\
     size_remaining - run_bytes (order info) < size_remaining) /\
  (forall fuel size_remaining max_order i pages w1 w2 t,
     0 < size_remaining ->
     alloc_largest_available b size_remaining max_order w1 =
       (Done None, w2, t) ->
     alloc_loop (S fuel) b size_remaining max_order i pages w1 =
       (Done (false, pages, i), w2, t)) /\
  (forall size_remaining max_order w1 w2 t,
     PAGE_SIZE <= size_remaining -> 0 <= max_order ->
     alloc_largest_scan orders b size_remaining max_order w1 =
       (Done None, w2, t) ->
     In (origin b 0) (refused t)) /\
  StronglySorted Z.gt orders /\ In 0 orders.
Proof.
  split; [ | split; [ | split; [ | split; [ | exact orders_descending]]]].
  - pose proof (ion_system_heap_allocate_spec b size align flags w) as H.
    unfold post in H.
    destruct (ion_system_heap_allocate b size align flags w) as [[r w'] t].
    destruct H as (rv & b' & -> & _). eauto.
  - intros sr mo w1 info w2 t Hsr Hrun.
    pose proof (alloc_largest_available_spec b sr mo w1) as H.
    rewrite post_run in H. specialize (H _ _ _ Hrun).
    destruct H as (_ & _ & _ & Ho & Hsz & _).
    destruct (run_bytes_order _ Ho) as (_ & Hos & _).
    pose proof (run_bytes_bounds _ Ho) as Hb. rewrite Hos in Hsz.
    split; [exact Ho | split; [lia | ]].
    rewrite PAGE_SIZE_val in Hb. rewrite ulong_small by lia. lia.
  - intros fuel sr mo i pages w1 w2 t Hsr Hrun. cbn [alloc_loop].
    apply Z.ltb_lt in Hsr. rewrite Hsr. unfold bind. rewrite Hrun.
    unfold ret. rewrite app_nil_r. reflexivity.
  - intros sr mo w1 w2 t Hsr Hmo Hrun.
    pose proof (alloc_largest_scan_spec orders b sr mo w1 (incl_refl _)) as H.
    rewrite post_run in H. specialize (H _ _ _ Hrun).
    destruct H as (_ & _ & _ & _ & H). apply H.
    + apply orders_descending.
    + exact Hsr.
    + exact Hmo.
Qed.

Lemma allocate_terminates_witness :
  (exists rv b' w' t,
     ion_system_heap_allocate uncached_buffer 12288 4096 0 sim_scarce =
       (Done (rv, b'), w', t)) /\
  In (origin uncached_buffer 0)
    (refused [ev_pool_alloc (uncached_pools, 2%nat) None]).
Proof.
  destruct (allocate_terminates uncached_buffer 12288 4096 0 sim_scarce)
    as (Hends & _ & _ & Hfits & _).
  split; [exact Hends | ].
  apply (Hfits 4096 0
           (mk_sim 8192 [] [[]; []; []] [[]; []; []] 10000)
           (mk_sim 8192 [] [[]; []; []] [[]; []; []] 10000)).
  - discriminate.
  - discriminate.
  - vm_compute. reflexivity.
Defined.

Lemma table_classes new :
  Forall (fun info => In (order info) orders) new ->
  Forall (fun sg =>
            exists o, In o orders /\
                      sg_length sg = Z.shiftl 1 o * PAGE_SIZE /\
                      get_order (sg_length sg) = o /\
                      order_to_index o <> None)
    (map sg_of_info new).
Proof.
  intros H. rewrite Forall_map. eapply Forall_impl; [ | exact H].
  intros info Ho. exists (order info). cbn [sg_of_info sg_length].
  destruct (run_bytes_order _ Ho) as (_ & _ & Hu & Hg).
  destruct (order_to_index_found _ Ho) as (i & Hi & _).
  split; [exact Ho | split; [ | split; [exact Hg | congruence]]].
  rewrite Hu. destruct (orders_cases _ Ho) as [-> | [-> | ->]]; reflexivity.
Qed.

(** C10. [ion_system_heap_allocate] never reaches the [BUG()] of
    [order_to_index], rollback included.  Every segment of the table it
    leaves is [(1 << o) * PAGE_SIZE] bytes long for an order [o] of the
    table of orders, [get_order] of that length is [o] again, and
    [order_to_index] finds it; so [ion_system_heap_free] of a buffer with
    that table, whatever its flags, ends without reaching [BUG()]. *)
Theorem allocated_buffer_never_reaches_BUG {W} {K : Kernel W}
    (b : ion_buffer) (size align flags : Z) (w : W) r w' t :
  ion_system_heap_allocate b size align flags w = (r, w', t) ->
  (exists rv b', r = Done (rv, b')) /\
  (forall b', r = Done (0, b') ->
     exists table,
       ion_system_heap_map_dma b' = Some table /\
       Forall (fun sg =>
                 exists o, In o orders /\
                           sg_length sg = Z.shiftl 1 o * PAGE_SIZE /\
                           get_order (sg_length sg) = o /\
                           order_to_index o <> None) table /\
       forall buffer (w1 : W),
         sg_table buffer = Some table ->
         exists w2 t2, ion_system_heap_free buffer w1 = (Done tt, w2, t2)).
Proof.
  intros Hrun.
  pose proof (ion_system_heap_allocate_spec b size align flags w) as H.
  rewrite post_run in H. specialize (H _ _ _ Hrun).
  destruct H as (rv0 & b0 & -> & H). split; [eauto | ].
  intros b' Heq. injection Heq as -> ->.
  destruct H as [(_ & Hrv & _) | [(_ & _ & Hrv & _) | H]];
    [discriminate Hrv | discriminate Hrv | ].
  destruct H as (_ & _ & new & t1 & t2 & _ & _ & _ & _ & _ & Hall & _ & _ & H).
  destruct H as [(_ & -> & _) | (Hrv & _)]; [ | discriminate Hrv].
  exists (map sg_of_info new).
  split; [reflexivity | split; [apply table_classes, Hall | ]].
  intros buffer w1 Htable.
  assert (Hwf : Forall (fun sg => In (get_order (sg_length sg)) orders)
                  (map sg_of_info new)).
  { eapply Forall_impl; [ | apply table_classes, Hall].
    intros sg (o & Ho & _ & -> & _). exact Ho. }
  pose proof (ion_system_heap_free_spec buffer _ w1 Htable (fun _ => Hwf)) as Hf.
  unfold post in Hf.
  destruct (ion_system_heap_free buffer w1) as [[r2 w2] t3].
  destruct Hf as [-> _]. eauto.
Qed.

Lemma allocated_buffer_never_reaches_BUG_witness :
  let table := [mk_sg 100 65536 0; mk_sg 1 4096 0; mk_sg 2 4096 0;
                mk_sg 3 4096 0] in
  let t := [ev_pool_alloc (uncached_pools, 1%nat) (Some 100);
            ev_pool_alloc (uncached_pools, 2%nat) (Some 1);
            ev_pool_alloc (uncached_pools, 2%nat) (Some 2);
            ev_pool_alloc (uncached_pools, 2%nat) (Some 3)] in
  let w' := mk_sim 8192 [] [[]; []; [4; 5; 6]] [[5000]; []; []] 10000 in
  ion_system_heap_allocate uncached_buffer 73729 4096 0 sim_stocked =
    (Done (0, set_priv_virt uncached_buffer table), w', t) /\
  exists w2 t2,
    ion_system_heap_free (mk_buffer 0 0 73729 (Some table) (Some table)) w' =
      (Done tt, w2, t2).
Proof.
  intros table t w'.
  assert (Hrun : ion_system_heap_allocate uncached_buffer 73729 4096 0
                   sim_stocked =
                 (Done (0, set_priv_virt uncached_buffer table), w', t))
    by (vm_compute; reflexivity).
  split; [exact Hrun | ].
  destruct (allocated_buffer_never_reaches_BUG _ _ _ _ _ _ _ _ Hrun)
    as [_ Hfree].
  destruct (Hfree _ eq_refl) as (table' & Hmap & _ & Hends).
  injection Hmap as <-.
  apply Hends. reflexivity.
Defined.

(** C7. [ion_system_heap_free] of a buffer whose segments are of the
    classes of the table of orders ends, and its calls are these, in this
    order.  For a buffer not marked [ION_PRIV_FLAG_SHRINKER_FREE], cached
    or not: first the zeroing of the buffer, then for every segment the
    return of its page to the pool of the bank of the buffer and of the
    order of the segment.  For a buffer marked so: no zeroing and no
    pool, every segment goes to [__free_pages] at its order. *)
Theorem free_releases_every_run {W} {K : Kernel W}
    (buffer : ion_buffer) (table : sg_table_t) (w : W) r w' t :
  sg_table buffer = Some table ->
  (shrinker_free buffer = false ->
   Forall (fun sg => In (get_order (sg_length sg)) orders) table) ->
  ion_system_heap_free buffer w = (r, w', t) ->
  r = Done tt /\
  if shrinker_free buffer then
    t = map (fun sg => ev_free_pages (sg_page sg) (get_order (sg_length sg)))
          table
  else
    t = ev_buffer_zero (Some table) ::
        map (fun sg => ev_pool_free
                         (origin buffer (get_order (sg_length sg)))
                         (sg_page sg)) table /\
    Forall (fun sg =>
              let pool := origin buffer (get_order (sg_length sg)) in
              fst pool = (if ion_buffer_cached buffer then cached_pools
                          else uncached_pools) /\
              pool_order pool = get_order (sg_length sg)) table.
Proof.
  intros Htable Hwf Hrun.
  pose proof (ion_system_heap_free_spec buffer table w Htable Hwf) as H.
  rewrite post_run in H. specialize (H _ _ _ Hrun).
  destruct H as [-> ->]. split; [reflexivity | ].
  unfold release_event. destruct (shrinker_free buffer).
  - reflexivity.
  - split; [reflexivity | ].
    eapply Forall_impl; [ | exact (Hwf eq_refl)].
    intros sg Ho. cbn zeta. split; [reflexivity | ].
    apply pool_order_origin, Ho.
Qed.

Lemma free_releases_every_run_witness :
  let table := [mk_sg 100 65536 0; mk_sg 1 4096 0] in
  let buffer := mk_buffer 0 0 69632 (Some table) (Some table) in
  let w := mk_sim 8192 [] [[]; []; []] [[]; []; []] 10000 in
  let w' := mk_sim 8192 [] [[]; [100]; [1]] [[]; []; []] 10000 in
  let t := [ev_buffer_zero (Some table);
            ev_pool_free (uncached_pools, 1%nat) 100;
            ev_pool_free (uncached_pools, 2%nat) 1] in
  sg_table buffer = Some table /\
  (shrinker_free buffer = false ->
   Forall (fun sg => In (get_order (sg_length sg)) orders) table) /\
  ion_system_heap_free buffer w = (Done tt, w', t) /\
  t = ev_buffer_zero (Some table) ::
      map (fun sg => ev_pool_free
                       (origin buffer (get_order (sg_length sg)))
                       (sg_page sg)) table.
Proof.
  intros table buffer w w' t.
  assert (Htable : sg_table buffer = Some table) by reflexivity.
  assert (Hwf : shrinker_free buffer = false ->
                Forall (fun sg => In (get_order (sg_length sg)) orders) table).
  { intros _.
    constructor; [vm_compute; auto | ].
    constructor; [vm_compute; auto | constructor]. }
  assert (Hrun : ion_system_heap_free buffer w = (Done tt, w', t))
    by (vm_compute; reflexivity).
  split; [exact Htable | split; [exact Hwf | split; [exact Hrun | ]]].
  exact (proj1 (proj2
    (free_releases_every_run buffer table w _ _ _ Htable Hwf Hrun))).
Defined.

Lemma freed_free_pages (f : Z -> page_ptr) (l : list Z) :
  freed (map (fun i => ev_free_pages (f i) 0) l) = map (fun i => (f i, 0)) l.
Proof.
  induction l as [ | i l IH]; [reflexivity | ].
  cbn [map]. change (freed (ev_free_pages (f i) 0 :: ?t))
    with ((f i, 0) :: freed t). rewrite IH. reflexivity.
Qed.

Lemma run_size_wraps_down o :
  0 <= o -> ulong (Z.shiftl PAGE_SIZE o) <= PAGE_SIZE * 2 ^ o.
Proof.
  intros Ho. rewrite Z.shiftl_mul_pow2 by exact Ho.
  unfold ulong, BITS_PER_LONG. apply Z.mod_le; [ | lia].
  rewrite PAGE_SIZE_val. assert (0 < 2 ^ o) by (apply Z.pow_pos_nonneg; lia).
  lia.
Qed.

(** C8. [ion_system_contig_heap_allocate] answers [-EINVAL], calling
    nothing, for an alignment above the size of the run of
    [get_order(len)].  When it succeeds, the table has the one segment of
    the page it obtained and of [PAGE_ALIGN(len)] bytes, and of the
    [2 ^ order] pages of the run exactly those from the page-aligned
    length on were given to [__free_page], each once: all of them, and
    none of the pages below. *)
Theorem contig_allocate_trims {W} {K : Kernel W}
    (b : ion_buffer) (len align flags : Z) (w : W) r w' t :
  ion_system_contig_heap_allocate b len align flags w = (r, w', t) ->
  let order := get_order len in
  let first := Z.shiftr (PAGE_ALIGN len) PAGE_SHIFT in
  (PAGE_SIZE * 2 ^ order < align -> r = Done (- EINVAL, b) /\ t = []) /\
  (forall b', r = Done (0, b') ->
     exists pg,
       priv_virt b' = Some [mk_sg pg (PAGE_ALIGN len) 0] /\
       t = [ev_alloc_pages low_order_gfp_flags order (Some pg);
            ev_split_page pg order] ++
           map (fun i => ev_free_pages (pg + i) 0)
             (range first (Z.to_nat (2 ^ order - first))) ++
           [ev_sync_for_device pg (PAGE_ALIGN len)] /\
       (forall i, first <= i < 2 ^ order -> In (pg + i, 0) (freed t)) /\
       (forall i, 0 <= i < first -> ~ In (pg + i, 0) (freed t))).
Proof.
  intros Hrun order first.
  pose proof (ion_system_contig_heap_allocate_spec b len align flags w) as H.
  cbn zeta in H. fold order in H. fold first in H.
  rewrite post_run in H. specialize (H _ _ _ Hrun).
  destruct H as (rv & b0 & -> & H).
  pose proof (run_size_wraps_down order (proj1 (get_order_range len))) as Hw.
  split.
  - intros Halign.
    destruct H as [(_ & -> & -> & ->) | [(Hle & _) | (pg & Hle & _)]];
      [auto | lia | lia].
  - intros b' Heq. injection Heq as -> ->.
    destruct H as [(_ & Hrv & _) | [(_ & Hrv & _) | (pg & _ & H)]];
      [discriminate Hrv | discriminate Hrv | ].
    destruct H as [(_ & -> & ->) | (Hrv & _)]; [ | contradiction Hrv; reflexivity].
    exists pg. split; [reflexivity | split; [reflexivity | ]].
    assert (Hfreed :
      freed ([ev_alloc_pages low_order_gfp_flags order (Some pg);
              ev_split_page pg order] ++
             map (fun i => ev_free_pages (pg + i) 0)
               (range first (Z.to_nat (2 ^ order - first))) ++
             [ev_sync_for_device pg (PAGE_ALIGN len)]) =
      map (fun i => (pg + i, 0))
        (range first (Z.to_nat (2 ^ order - first)))).
    { rewrite !freed_app, freed_free_pages. cbn. apply app_nil_r. }
    rewrite Hfreed. split.
    + intros i Hi. apply (in_map (fun i => (pg + i, 0))).
      apply In_range. lia.
    + intros i Hi Hin. apply in_map_iff in Hin.
      destruct Hin as (j & Heq & Hj). apply In_range in Hj.
      injection Heq as Heq. lia.
Qed.

Lemma contig_allocate_trims_witness :
  let t := [ev_alloc_pages 0 2 (Some 10000); ev_split_page 10000 2;
            ev_free_pages 10003 0; ev_sync_for_device 10000 12288] in
  let w' := mk_sim 8192 [] [[]; [100]; [1; 2; 3; 4; 5; 6]] [[5000]; []; []]
              10004 in
  let b' := set_priv_virt uncached_buffer [mk_sg 10000 12288 0] in
  ion_system_contig_heap_allocate uncached_buffer 8193 4096 0 sim_stocked =
    (Done (0, b'), w', t) /\
  get_order 8193 = 2 /\ PAGE_ALIGN 8193 = 12288 /\
  exists pg,
    priv_virt b' = Some [mk_sg pg (PAGE_ALIGN 8193) 0] /\
    (forall i, 3 <= i < 4 -> In (pg + i, 0) (freed t)) /\
    (forall i, 0 <= i < 3 -> ~ In (pg + i, 0) (freed t)).
Proof.
  intros t w' b'.
  assert (Hrun : ion_system_contig_heap_allocate uncached_buffer 8193 4096 0
                   sim_stocked = (Done (0, b'), w', t))
    by (vm_compute; reflexivity).
  split; [exact Hrun | split; [reflexivity | split; [reflexivity | ]]].
  destruct (contig_allocate_trims _ _ _ _ _ _ _ _ Hrun) as [_ H].
  destruct (H b' eq_refl) as (pg & Hp & _ & Hin & Hout).
  exists pg. split; [exact Hp | split; [exact Hin | exact Hout]].
Defined.

Section ShrinkClaims.
Context {W : Type} {K : Kernel W}.

Lemma shrink_drain_done n :
  forall i gfp_mask nr_to_scan nr_freed (w : W),
  post (shrink_drain n i gfp_mask nr_to_scan nr_freed) w (fun r _ _ =>
    exists nr_freed', r = Done nr_freed').
Proof.
  induction n as [ | n IH]; intros i gfp_mask nr_to_scan nr_freed w.
  - apply post_ret. eauto.
  - cbn [shrink_drain].
    apply post_bind, post_pool_shrink. intros r1 w1 _.
    destruct (nr_to_scan <=? sint (nr_freed + r1)); [apply post_ret; eauto | ].
    apply post_bind, post_pool_shrink. intros r2 w2 _.
    destruct (nr_to_scan <=? sint (sint (nr_freed + r1) + r2));
      [apply post_ret; eauto | ].
    eapply post_weaken; [apply IH | ].
    intros r w3 t3 H. exact H.
Qed.

Lemma ion_system_heap_shrink_spec gfp_mask nr_to_scan (w : W) :
  0 < nr_to_scan ->
  post (ion_system_heap_shrink gfp_mask nr_to_scan) w (fun r _ t =>
    (exists nr_total, r = Done nr_total) /\
    drained nr_to_scan 0 drain_order (drains t)).
Proof.
  intros Hn. unfold ion_system_heap_shrink.
  assert (E : (nr_to_scan =? 0) = false) by (apply Z.eqb_neq; lia).
  rewrite E. apply post_bind.
  eapply post_weaken; [apply shrink_drain_spec; lia | ].
  intros r w1 t1 [[nr_freed ->] Hd].
  eapply post_weaken; [apply shrink_inventory_spec | ].
  intros r w2 t2 [Hr Hi]. split; [exact Hr | ].
  rewrite drains_app, Hi, app_nil_r. exact Hd.
Qed.

End ShrinkClaims.

(** C2, as amended.  [ion_system_heap_shrink] with a count above zero
    asks the pools to free pages in one order, the classes from the
    largest down and in each class the uncached pool before the cached
    one.  Each pool is asked for the whole count [nr_to_scan], whatever
    was freed before it, and is asked only while the pages freed in this
    call are fewer than [nr_to_scan]; the asking ends when they are no
    fewer, or with the last pool. *)
Theorem shrink_drains_in_order {W} {K : Kernel W}
    (gfp_mask : gfp_t) (nr_to_scan : Z) (w : W) r w' t :
  0 < nr_to_scan ->
  ion_system_heap_shrink gfp_mask nr_to_scan w = (r, w', t) ->
  drained nr_to_scan 0 drain_order (drains t) /\
  drain_order = [(uncached_pools, 0%nat); (cached_pools, 0%nat);
                 (uncached_pools, 1%nat); (cached_pools, 1%nat);
                 (uncached_pools, 2%nat); (cached_pools, 2%nat)] /\
  map pool_order drain_order = [8; 8; 4; 4; 0; 0].
Proof.
  intros Hn Hrun.
  pose proof (ion_system_heap_shrink_spec gfp_mask nr_to_scan w Hn) as H.
  rewrite post_run in H. specialize (H _ _ _ Hrun).
  destruct H as [_ Hd]. split; [exact Hd | split; reflexivity].
Qed.

Lemma shrink_drains_in_order_witness :
  let t := [ev_pool_shrink (uncached_pools, 0%nat) 0 4 3;
            ev_pool_shrink (cached_pools, 0%nat) 0 4 4;
            ev_pool_shrink (uncached_pools, 0%nat) 0 0 0;
            ev_pool_shrink (cached_pools, 0%nat) 0 0 1;
            ev_pool_shrink (uncached_pools, 1%nat) 0 0 1;
            ev_pool_shrink (cached_pools, 1%nat) 0 0 0;
            ev_pool_shrink (uncached_pools, 2%nat) 0 0 2;
            ev_pool_shrink (cached_pools, 2%nat) 0 0 0] in
  let w' := mk_sim 8192 [] [[]; [100]; [200; 201]] [[11]; []; []] 10000 in
  0 < 4 /\
  ion_system_heap_shrink 0 4 sim_pressure = (Done 4, w', t) /\
  drains t = [((uncached_pools, 0%nat), 4, 3); ((cached_pools, 0%nat), 4, 4)] /\
  drained 4 0 drain_order (drains t).
Proof.
  intros t w'.
  assert (Hn : 0 < 4) by reflexivity.
  assert (Hrun : ion_system_heap_shrink 0 4 sim_pressure = (Done 4, w', t))
    by (vm_compute; reflexivity).
  split; [exact Hn | split; [exact Hrun | split; [reflexivity | ]]].
  exact (proj1 (shrink_drains_in_order _ _ _ _ _ _ Hn Hrun)).
Defined.

(** C2, as the specification has it, fails: asked to free four pages,
    the heap asks the second pool for four after the first pool freed
    three, where the outstanding need is one; seven pages are freed. *)
Lemma shrink_outstanding_need_counterexample :
  ~ (forall t1 pool gfp_mask n r t2,
       snd (ion_system_heap_shrink 0 4 sim_pressure) =
         t1 ++ ev_pool_shrink pool gfp_mask n r :: t2 ->
       n <> 0 ->
       n <= 4 - nr_freed_in t1).
Proof.
  intros H.
  assert (Hle : 4 <= 4 - nr_freed_in [ev_pool_shrink (uncached_pools, 0%nat) 0 4 3]).
  { apply (H [ev_pool_shrink (uncached_pools, 0%nat) 0 4 3]
             (cached_pools, 0%nat) 0 4 4
             [ev_pool_shrink (uncached_pools, 0%nat) 0 0 0;
              ev_pool_shrink (cached_pools, 0%nat) 0 0 1;
              ev_pool_shrink (uncached_pools, 1%nat) 0 0 1;
              ev_pool_shrink (cached_pools, 1%nat) 0 0 0;
              ev_pool_shrink (uncached_pools, 2%nat) 0 0 2;
              ev_pool_shrink (cached_pools, 2%nat) 0 0 0]).
    - vm_compute. reflexivity.
    - discriminate. }
  vm_compute in Hle. apply Hle. reflexivity.
Qed.

(** C4. With pools that answer an inventory as the specification has
    it: [ion_system_heap_shrink] with a count of zero changes nothing,
    asks every pool of both banks for its inventory only, and answers
    the number of pages resident in them, as an [int].  With another
    count it answers, once the first loop is over, the number of pages
    resident in the world that loop left, found by the same pass over
    every pool, whatever number the loop freed.  The [int] is the number
    itself when that is in the range of [int]. *)
Theorem shrink_answers_resident {W} {K : Kernel W} {I : PoolInventory W}
    (gfp_mask : gfp_t) (nr_to_scan : Z) (w : W) :
  (nr_to_scan = 0 ->
   ion_system_heap_shrink gfp_mask nr_to_scan w =
     (Done (sint (total_resident w)), w, inventory_trace gfp_mask w) /\
   drains (inventory_trace gfp_mask w) = []) /\
  (nr_to_scan <> 0 ->
   exists nr_freed w1 t1,
     shrink_drain num_orders 0 gfp_mask nr_to_scan 0 w =
       (Done nr_freed, w1, t1) /\
     ion_system_heap_shrink gfp_mask nr_to_scan w =
       (Done (sint (total_resident w1)), w1,
        t1 ++ inventory_trace gfp_mask w1)) /\
  (forall w1 : W,
     INT_MIN <= total_resident w1 <= INT_MAX ->
     sint (total_resident w1) = total_resident w1).
Proof.
  split; [ | split].
  - intros ->. unfold ion_system_heap_shrink. cbn [Z.eqb].
    unfold bind at 1. unfold ret at 1.
    rewrite shrink_inventory_resident. split; reflexivity.
  - intros Hn. unfold ion_system_heap_shrink.
    assert (E : (nr_to_scan =? 0) = false) by (apply Z.eqb_neq; exact Hn).
    rewrite E. unfold bind.
    pose proof (shrink_drain_done num_orders 0%nat gfp_mask nr_to_scan 0 w) as H.
    unfold post in H.
    destruct (shrink_drain num_orders 0 gfp_mask nr_to_scan 0 w)
      as [[r w1] t1].
    destruct H as [nr_freed ->].
    rewrite shrink_inventory_resident. eauto.
  - intros w1 H. apply sint_small. unfold INT_MIN, INT_MAX in H. lia.
Qed.

Lemma shrink_answers_resident_witness :
  let w1 := mk_sim 8192 [] [[]; [100]; [200; 201]] [[11]; []; []] 10000 in
  total_resident sim_pressure = 11 /\
  ion_system_heap_shrink 0 0 sim_pressure =
    (Done 11, sim_pressure, inventory_trace 0 sim_pressure) /\
  total_resident w1 = 4 /\
  (exists t1,
     nr_freed_in t1 = 7 /\
     ion_system_heap_shrink 0 4 sim_pressure =
       (Done 4, w1, t1 ++ inventory_trace 0 w1)).
Proof.
  intros w1.
  destruct (shrink_answers_resident 0 0 sim_pressure) as (H0 & _ & _).
  destruct (shrink_answers_resident 0 4 sim_pressure) as (_ & H4 & _).
  split; [reflexivity | split; [exact (proj1 (H0 eq_refl)) | ]].
  split; [reflexivity | ].
  destruct H4 as (nr_freed & w2 & t1 & Hd & Hrun); [discriminate | ].
  vm_compute in Hd. injection Hd as <- <- <-.
  eexists. split; [ | exact Hrun]. reflexivity.
Defined.

(** The other way to fail: both pages are there, and the [kmalloc] of the
    table, the third call of the slab allocator, fails; the two pages go
    back to their pool. *)
Example allocate_table_failure :
  ion_system_heap_allocate uncached_buffer 8192 4096 0 (sim_slab_fails 2) =
    (Done (- ENOMEM, uncached_buffer),
     mk_sim 8192 [] [[]; []; [3; 4; 5; 6; 1; 2]] [[]; []; []] 10000,
     [ev_pool_alloc (uncached_pools, 2%nat) (Some 1);
      ev_pool_alloc (uncached_pools, 2%nat) (Some 2);
      ev_pool_free (uncached_pools, 2%nat) 1;
      ev_pool_free (uncached_pools, 2%nat) 2]).
Proof. vm_compute. reflexivity. Qed.

(** A buffer marked [ION_PRIV_FLAG_SHRINKER_FREE]: the rollback goes to
    the page allocator. *)
Example allocate_failure_bypasses_pools :
  ion_system_heap_allocate reclaimed_buffer 12288 4096 0 sim_scarce =
    (Done (- ENOMEM, reclaimed_buffer),
     mk_sim 8192 [] [[]; []; []] [[]; []; []] 10000,
     [ev_pool_alloc (uncached_pools, 2%nat) (Some 1);
      ev_pool_alloc (uncached_pools, 2%nat) (Some 2);
      ev_pool_alloc (uncached_pools, 2%nat) None;
      ev_free_pages 1 0; ev_free_pages 2 0]).
Proof. vm_compute. reflexivity. Qed.

(** The request of [allocate_size_guard_counterexample] is served: it
    answers 0 with seventeen runs taken from the pools. *)
Example allocate_just_over_half_of_memory :
  exists b' w' t,
    ion_system_heap_allocate uncached_buffer 16777217 PAGE_SIZE 0 sim_roomy =
      (Done (0, b'), w', t) /\
    16777217 / PAGE_SIZE = 4096 /\ totalram_pages sim_roomy / 2 = 4096 /\
    PAGE_ALIGN 16777217 = 4097 * PAGE_SIZE /\
    map (fun a => pool_order (fst a)) (acquired t) = repeat 8 16 ++ [0].
Proof.
  do 3 eexists. split; [vm_compute; reflexivity | ].
  repeat split.
Qed.

(** ** Further properties of the system heap *)

Section MoreCalls.
Context {W : Type} {K : Kernel W}.

Lemma post_pool_alloc_eq pool w
    (Q : result (option page_ptr) -> W -> list event -> Prop) :
  (forall r w', ion_page_pool_alloc pool w = (r, w') ->
                Q (Done r) w' [ev_pool_alloc pool r]) ->
  post (call_pool_alloc pool) w Q.
Proof.
  intros H. unfold post, call_pool_alloc.
  destruct (ion_page_pool_alloc pool w) eqn:E. apply H. reflexivity.
Qed.

Lemma post_kmalloc_eq w (Q : result bool -> W -> list event -> Prop) :
  (forall r w', kmalloc w = (r, w') -> Q (Done r) w' []) ->
  post call_kmalloc w Q.
Proof.
  intros H. unfold post, call_kmalloc.
  destruct (kmalloc w) eqn:E. apply H. reflexivity.
Qed.

Lemma post_sg_alloc_table_eq n w (Q : result Z -> W -> list event -> Prop) :
  (forall r w', sg_alloc_table n w = (r, w') -> Q (Done r) w' []) ->
  post (call_sg_alloc_table n) w Q.
Proof.
  intros H. unfold post, call_sg_alloc_table.
  destruct (sg_alloc_table n w) eqn:E. apply H. reflexivity.
Qed.

(** A property of traces that holds of the empty trace and of the
    concatenation of two traces that have it is kept by sequencing. *)
Lemma post_bind_trace {A B} (P : list event -> Prop)
    (m : M W A) (k : A -> M W B) w :
  (forall t1 t2, P t1 -> P t2 -> P (t1 ++ t2)) ->
  post m w (fun _ _ t => P t) ->
  (forall a w1, post (k a) w1 (fun _ _ t => P t)) ->
  post (bind m k) w (fun _ _ t => P t).
Proof.
  intros Happ Hm Hk. apply post_bind.
  eapply post_weaken; [exact Hm | ].
  intros [a | f] w1 t1 H1; [ | exact H1].
  eapply post_weaken; [apply Hk | ].
  intros r2 w2 t2 H2. apply Happ; assumption.
Qed.

End MoreCalls.

Lemma order_to_index_missing o : ~ In o orders -> order_to_index o = None.
Proof.
  intros H. unfold order_to_index, orders in *. cbn [order_to_index_from].
  destruct (o =? 8) eqn:E8; [apply Z.eqb_eq in E8; subst; simpl in H; tauto | ].
  destruct (o =? 4) eqn:E4; [apply Z.eqb_eq in E4; subst; simpl in H; tauto | ].
  destruct (o =? 0) eqn:E0; [apply Z.eqb_eq in E0; subst; simpl in H; tauto | ].
  reflexivity.
Qed.

(** X1. [order_to_index] and the table [orders] are inverse to each
    other: [order_to_index] answers [i] for [order] exactly when [i] is an
    index of the table and [orders[i]] is [order], and it reaches [BUG()]
    exactly for the orders that are not in the table. *)
Theorem order_to_index_inverts_orders (order : Z) (i : nat) :
  (order_to_index order = Some i <->
   (i < num_orders)%nat /\ nth i orders 0 = order) /\
  (order_to_index order = None <-> ~ In order orders).
Proof.
  split; split.
  - intros H. destruct (order_to_index order) as [j | ] eqn:E; [ | discriminate].
    injection H as ->.
    unfold order_to_index, orders in E. cbn [order_to_index_from] in E.
    destruct (order =? 8) eqn:E8;
      [apply Z.eqb_eq in E8; injection E as <-; split; [cbn; lia | cbn; lia] | ].
    destruct (order =? 4) eqn:E4;
      [apply Z.eqb_eq in E4; injection E as <-; split; [cbn; lia | cbn; lia] | ].
    destruct (order =? 0) eqn:E0;
      [apply Z.eqb_eq in E0; injection E as <-; split; [cbn; lia | cbn; lia] | ].
    discriminate E.
  - intros [Hi Hn]. unfold num_orders, orders in *. cbn [length] in Hi.
    destruct i as [ | [ | [ | i]]]; cbn in Hn; subst; try reflexivity; lia.
  - intros H Hin. destruct (order_to_index_found _ Hin) as (j & Hj & _).
    congruence.
  - apply order_to_index_missing.
Qed.

Section LargestFirst.
Context {W : Type} {K : Kernel W}.

Lemma alloc_largest_scan_largest tbl b size max_order (w : W) :
  incl tbl orders -> StronglySorted Z.gt tbl ->
  post (alloc_largest_scan tbl b size max_order) w (fun r _ t =>
    match r with
    | Done (Some info) =>
        forall o, In o tbl -> order info < o ->
                  order_to_size o <= size -> o <= max_order ->
                  In (origin b o) (refused t)
    | _ => True
    end).
Proof.
  induction tbl as [ | o tbl IH] in w |- *; intros Hin Hs.
  - apply post_ret. exact I.
  - assert (Ho : In o orders) by (apply Hin; left; reflexivity).
    assert (Hin' : incl tbl orders)
      by (intros x Hx; apply Hin; right; exact Hx).
    apply StronglySorted_inv in Hs. destruct Hs as [Hs Hgt].
    rewrite Forall_forall in Hgt.
    assert (Hskip : forall w,
      (size < order_to_size o \/ max_order < o) ->
      post (alloc_largest_scan tbl b size max_order) w (fun r _ t =>
        match r with
        | Done (Some info) =>
            forall o', In o' (o :: tbl) -> order info < o' ->
                       order_to_size o' <= size -> o' <= max_order ->
                       In (origin b o') (refused t)
        | _ => True
        end)).
    { intros w0 Hno. eapply post_weaken; [apply IH; assumption | ].
      intros [[info | ] | f] w' t H; try exact I.
      intros o' [<- | Ho'] Hlt Hsz Hmo; [lia | auto]. }
    cbn [alloc_largest_scan]. destruct (size <? order_to_size o) eqn:E1.
    { apply Hskip. left. apply Z.ltb_lt. exact E1. }
    destruct (max_order <? o) eqn:E2.
    { apply Hskip. right. apply Z.ltb_lt. exact E2. }
    apply post_bind. eapply post_weaken; [apply alloc_buffer_page_spec, Ho | ].
    intros r w1 t1 (pg & -> & ->). destruct pg as [pg | ].
    + apply post_ret. cbn [order].
      intros o' [<- | Ho'] Hlt _ _; [lia | ].
      specialize (Hgt _ Ho'). lia.
    + pose proof (alloc_largest_scan_spec tbl b size max_order w1 Hin') as Hin2.
      pose proof (IH w1 Hin' Hs) as Hl. unfold post in *.
      destruct (alloc_largest_scan tbl b size max_order w1) as [[r w'] t].
      destruct r as [[info | ] | f]; try exact I.
      intros o' [<- | Ho'] Hlt Hsz Hmo.
      * rewrite refused_app. apply in_or_app. left. left. reflexivity.
      * rewrite refused_app. apply in_or_app. right. auto.
Qed.

End LargestFirst.

(** X2. Largest available first: when [alloc_largest_available] takes a
    run, the pool of every larger class of the table that fits the size
    and the order limit was asked before and had no page. *)
Theorem alloc_largest_available_takes_largest {W} {K : Kernel W}
    (b : ion_buffer) (size max_order : Z) (w : W) info w' t :
  alloc_largest_available b size max_order w = (Done (Some info), w', t) ->
  forall o, In o orders -> order info < o ->
            order_to_size o <= size -> o <= max_order ->
            In (origin b o) (refused t).
Proof.
  intros Hrun.
  assert (H : post (alloc_largest_available b size max_order) w (fun r _ t =>
    match r with
    | Done (Some info) =>
        forall o, In o orders -> order info < o ->
                  order_to_size o <= size -> o <= max_order ->
                  In (origin b o) (refused t)
    | _ => True
    end)).
  { unfold alloc_largest_available. apply post_bind, post_kmalloc.
    intros [ | ] w1; cbn [negb].
    - eapply post_weaken.
      + apply alloc_largest_scan_largest;
          [apply incl_refl | apply orders_descending].
      + intros r w2 t2 H. exact H.
    - apply post_ret. exact I. }
  rewrite post_run in H. exact (H _ _ _ Hrun).
Qed.

Lemma alloc_largest_available_takes_largest_witness :
  let w := mk_sim 8192 [] [[]; []; [1; 2]] [[]; []; []] 10000 in
  let w' := mk_sim 8192 [] [[]; []; [2]] [[]; []; []] 10000 in
  let t := [ev_pool_alloc (uncached_pools, 0%nat) None;
            ev_pool_alloc (uncached_pools, 1%nat) None;
            ev_pool_alloc (uncached_pools, 2%nat) (Some 1)] in
  alloc_largest_available uncached_buffer (300 * PAGE_SIZE) 8 w =
    (Done (Some (mk_info 1 0)), w', t) /\
  In (origin uncached_buffer 8) (refused t) /\
  In (origin uncached_buffer 4) (refused t).
Proof.
  intros w w' t.
  assert (Hrun : alloc_largest_available uncached_buffer (300 * PAGE_SIZE) 8 w =
                 (Done (Some (mk_info 1 0)), w', t))
    by (vm_compute; reflexivity).
  pose proof (alloc_largest_available_takes_largest _ _ _ _ _ _ _ Hrun) as H.
  split; [exact Hrun | split].
  - apply H; [simpl; auto | reflexivity | discriminate | discriminate].
  - apply H; [simpl; auto | reflexivity | discriminate | discriminate].
Defined.

Lemma touched_app t1 t2 : touched (t1 ++ t2) = touched t1 ++ touched t2.
Proof. apply flat_map_app. Qed.

Section Isolation.
Context {W : Type} {K : Kernel W}.
Variable b : ion_buffer.

Lemma in_bank_app t1 t2 : in_bank b t1 -> in_bank b t2 -> in_bank b (t1 ++ t2).
Proof.
  unfold in_bank. intros H1 H2. rewrite touched_app.
  apply Forall_app. split; assumption.
Qed.

Lemma in_bank_nil : in_bank b [].
Proof. constructor. Qed.

Lemma alloc_buffer_page_in_bank o (w : W) :
  post (alloc_buffer_page b o) w (fun _ _ t => in_bank b t).
Proof.
  unfold alloc_buffer_page, order_to_index_or_BUG.
  destruct (order_to_index o) as [i | ].
  - apply post_bind, post_ret, post_bind, post_pool_alloc.
    intros r w'.
    assert (Hb : in_bank b
      [ev_pool_alloc (if negb (ion_buffer_cached b) then (uncached_pools, i)
                      else (cached_pools, i)) r]).
    { unfold in_bank, bank_of. cbn.
      destruct (ion_buffer_cached b); repeat constructor. }
    destruct r; apply post_ret; rewrite app_nil_r; exact Hb.
  - apply post_bind, post_stop. exact in_bank_nil.
Qed.

Lemma free_buffer_page_in_bank pg o (w : W) :
  post (free_buffer_page b pg o) w (fun _ _ t => in_bank b t).
Proof.
  unfold free_buffer_page, order_to_index_or_BUG.
  destruct (shrinker_free b).
  - unfold post, call_free_pages. constructor.
  - destruct (order_to_index o) as [i | ].
    + apply post_bind, post_ret. unfold post, call_pool_free.
      unfold in_bank, bank_of. cbn.
      destruct (ion_buffer_cached b); repeat constructor.
    + apply post_bind, post_stop. exact in_bank_nil.
Qed.

Lemma alloc_largest_scan_in_bank tbl size max_order (w : W) :
  post (alloc_largest_scan tbl b size max_order) w (fun _ _ t => in_bank b t).
Proof.
  induction tbl as [ | o tbl IH] in w |- *.
  - apply post_ret. exact in_bank_nil.
  - cbn [alloc_largest_scan].
    destruct (size <? order_to_size o); [apply IH | ].
    destruct (max_order <? o); [apply IH | ].
    apply post_bind_trace;
      [exact in_bank_app | apply alloc_buffer_page_in_bank | ].
    intros [pg | ] w1; [apply post_ret; exact in_bank_nil | apply IH].
Qed.

Lemma alloc_loop_in_bank fuel :
  forall size_remaining max_order i pages (w : W),
  post (alloc_loop fuel b size_remaining max_order i pages) w
    (fun _ _ t => in_bank b t).
Proof.
  induction fuel as [ | fuel IH]; intros sr mo i pages w; cbn [alloc_loop];
    destruct (0 <? sr);
    try (apply post_ret; exact in_bank_nil);
    try (apply post_stop; exact in_bank_nil).
  apply post_bind_trace; [exact in_bank_app | | ].
  - unfold alloc_largest_available.
    apply post_bind_trace; [exact in_bank_app | | ].
    + apply post_kmalloc. intros r w'. exact in_bank_nil.
    + intros [ | ] w1; cbn [negb];
        [apply alloc_largest_scan_in_bank | apply post_ret; exact in_bank_nil].
  - intros [info | ] w1; [apply IH | apply post_ret; exact in_bank_nil].
Qed.

Lemma for_each_in_bank {A} (body : A -> M W unit) l (w : W) :
  (forall a w1, post (body a) w1 (fun _ _ t => in_bank b t)) ->
  post (for_each body l) w (fun _ _ t => in_bank b t).
Proof.
  intros Hbody. induction l as [ | a l IH] in w |- *.
  - apply post_ret. exact in_bank_nil.
  - cbn [for_each]. apply post_bind_trace;
      [exact in_bank_app | apply Hbody | intros _ w1; apply IH].
Qed.

Lemma alloc_rollback_in_bank pages (w : W) :
  post (alloc_rollback b pages) w (fun _ _ t => in_bank b t).
Proof.
  unfold alloc_rollback. apply post_bind_trace; [exact in_bank_app | | ].
  - apply for_each_in_bank. intros info w1. apply free_buffer_page_in_bank.
  - intros _ w1. apply post_ret. exact in_bank_nil.
Qed.

Lemma ion_system_heap_allocate_in_bank size align flags (w : W) :
  post (ion_system_heap_allocate b size align flags) w
    (fun _ _ t => in_bank b t).
Proof.
  unfold ion_system_heap_allocate.
  destruct (PAGE_SIZE <? align); [apply post_ret; exact in_bank_nil | ].
  apply post_bind_trace; [exact in_bank_app | | ].
  { unfold post, read_totalram_pages. exact in_bank_nil. }
  intros total w1.
  destruct (total / 2 <? size / PAGE_SIZE);
    [apply post_ret; exact in_bank_nil | ].
  apply post_bind_trace;
    [exact in_bank_app | apply alloc_loop_in_bank | ].
  intros [[finished pages] i] w2.
  destruct finished; cbn [negb]; [ | apply alloc_rollback_in_bank].
  apply post_bind_trace; [exact in_bank_app | | ].
  { apply post_kmalloc. intros r w'. exact in_bank_nil. }
  intros [ | ] w3; cbn [negb]; [ | apply alloc_rollback_in_bank].
  apply post_bind_trace; [exact in_bank_app | | ].
  { apply post_sg_alloc_table. intros r w'. exact in_bank_nil. }
  intros r w4.
  destruct (r =? 0); cbn [negb];
    [apply post_ret; exact in_bank_nil | apply alloc_rollback_in_bank].
Qed.

Lemma ion_system_heap_free_in_bank (w : W) :
  post (ion_system_heap_free b) w (fun _ _ t => in_bank b t).
Proof.
  unfold ion_system_heap_free.
  destruct (sg_table b) as [table | ]; [ | apply post_stop; exact in_bank_nil].
  apply post_bind_trace; [exact in_bank_app | | ].
  - destruct (shrinker_free b); cbn [negb].
    + apply post_ret. exact in_bank_nil.
    + unfold post, call_buffer_zero. constructor.
  - intros _ w1. apply for_each_in_bank.
    intros sg w2. apply free_buffer_page_in_bank.
Qed.

End Isolation.

(** X3. Cacheability isolation: whatever happens, success, failure with
    rollback or fault, [ion_system_heap_allocate] and
    [ion_system_heap_free] call no pool but those of the bank of the
    buffer, the cached pools for a buffer with [ION_FLAG_CACHED] and the
    uncached pools for one without. *)
Theorem buffer_stays_in_its_bank {W} {K : Kernel W}
    (b : ion_buffer) (size align flags : Z) (w : W) :
  Forall (fun pool => fst pool = bank_of b)
    (touched (snd (ion_system_heap_allocate b size align flags w))) /\
  Forall (fun pool => fst pool = bank_of b)
    (touched (snd (ion_system_heap_free b w))).
Proof.
  split.
  - pose proof (ion_system_heap_allocate_in_bank b size align flags w) as H.
    unfold post in H.
    destruct (ion_system_heap_allocate b size align flags w) as [[r w'] t].
    exact H.
  - pose proof (ion_system_heap_free_in_bank b w) as H.
    unfold post in H. destruct (ion_system_heap_free b w) as [[r w'] t].
    exact H.
Qed.

Lemma origin_same_flags b1 b2 o :
  flags b1 = flags b2 -> origin b1 o = origin b2 o.
Proof.
  intros H. unfold origin, bank_of, ion_buffer_cached. rewrite H. reflexivity.
Qed.

Lemma release_events_of_table buffer new :
  Forall (fun info => In (order info) orders) new ->
  let t := map (release_event buffer) (map sg_of_info new) in
  acquired t = [] /\ zeroed t = [] /\
  if shrinker_free buffer then
    returned t = [] /\ freed t = map (fun info => (page info, order info)) new
  else
    returned t = taken buffer new /\ freed t = [].
Proof.
  intros Hall. cbn zeta. unfold release_event.
  unfold acquired, zeroed, returned, freed, taken.
  destruct (shrinker_free buffer).
  - induction Hall as [ | info new Ho _ IH]; [repeat split; reflexivity | ].
    destruct (run_bytes_order _ Ho) as (_ & _ & _ & Hg).
    cbn [map flat_map app sg_of_info sg_length sg_page]. rewrite Hg.
    destruct IH as (-> & -> & -> & ->). repeat split; reflexivity.
  - induction Hall as [ | info new Ho _ IH]; [repeat split; reflexivity | ].
    destruct (run_bytes_order _ Ho) as (_ & _ & _ & Hg).
    cbn [map flat_map app sg_of_info sg_length sg_page]. rewrite Hg.
    destruct IH as (-> & -> & -> & ->). repeat split; reflexivity.
Qed.

(** X4. Round trip: [ion_system_heap_free] of a buffer that carries the
    table a successful [ion_system_heap_allocate] made, with the
    cacheability it had then, ends and gives back what was taken, in the
    same order: every page to the pool it was taken from, or for a
    shrinker-originated free every page to [__free_pages] at the order of
    that pool; and it takes no page from any pool. *)
Theorem free_gives_back_what_allocate_took {W} {K : Kernel W}
    (b : ion_buffer) (size align flags0 : Z) (w : W) b' w' t
    (buffer : ion_buffer) (w1 : W) r1 w1' t1 :
  ion_system_heap_allocate b size align flags0 w = (Done (0, b'), w', t) ->
  sg_table buffer = ion_system_heap_map_dma b' ->
  flags buffer = flags b ->
  ion_system_heap_free buffer w1 = (r1, w1', t1) ->
  r1 = Done tt /\ acquired t1 = [] /\
  if shrinker_free buffer then
    returned t1 = [] /\
    freed t1 = map (fun a => (snd a, pool_order (fst a))) (acquired t)
  else
    returned t1 = acquired t /\ freed t1 = [].
Proof.
  intros Hrun Htable Hflags Hfree.
  pose proof (ion_system_heap_allocate_spec b size align flags0 w) as H.
  rewrite post_run in H. specialize (H _ _ _ Hrun).
  destruct H as (rv0 & b0 & Heq & H). injection Heq as <- <-.
  destruct H as [(_ & Hrv & _) | [(_ & _ & Hrv & _) | H]];
    [discriminate Hrv | discriminate Hrv | ].
  destruct H as (_ & _ & new & ta & tb & -> & Ha & _ & _ & _ & Hall & _ & _ & H).
  destruct H as [(_ & -> & -> & _) | (Hrv & _)]; [ | discriminate Hrv].
  cbn in Htable.
  assert (Hwf : Forall (fun sg => In (get_order (sg_length sg)) orders)
                  (map sg_of_info new)).
  { eapply Forall_impl; [ | apply table_classes, Hall].
    intros sg (o & Ho & _ & -> & _). exact Ho. }
  pose proof (ion_system_heap_free_spec buffer _ w1 Htable (fun _ => Hwf)) as Hf.
  rewrite post_run in Hf. destruct (Hf _ _ _ Hfree) as [-> ->].
  pose proof (release_events_of_table buffer new Hall) as Hrel.
  cbn zeta in Hrel. destruct Hrel as (Hacq & _ & Hrel).
  rewrite app_nil_r, Ha. split; [reflexivity | ].
  rewrite acquired_app, returned_app, freed_app, Hacq.
  assert (Htaken : taken buffer new = taken b new).
  { unfold taken. apply map_ext. intros info.
    rewrite (origin_same_flags buffer b) by exact Hflags. reflexivity. }
  destruct (shrinker_free buffer); destruct Hrel as [-> ->]; cbn.
  - split; [reflexivity | ]. split; [reflexivity | ].
    symmetry. apply taken_freed, Hall.
  - split; [reflexivity | ]. split; [exact Htaken | reflexivity].
Qed.

Lemma free_gives_back_what_allocate_took_witness :
  let table := [mk_sg 100 65536 0; mk_sg 1 4096 0; mk_sg 2 4096 0;
                mk_sg 3 4096 0] in
  let t := [ev_pool_alloc (uncached_pools, 1%nat) (Some 100);
            ev_pool_alloc (uncached_pools, 2%nat) (Some 1);
            ev_pool_alloc (uncached_pools, 2%nat) (Some 2);
            ev_pool_alloc (uncached_pools, 2%nat) (Some 3)] in
  let w' := mk_sim 8192 [] [[]; []; [4; 5; 6]] [[5000]; []; []] 10000 in
  let buffer := mk_buffer 0 0 73729 (Some table) (Some table) in
  let t1 := [ev_buffer_zero (Some table);
             ev_pool_free (uncached_pools, 1%nat) 100;
             ev_pool_free (uncached_pools, 2%nat) 1;
             ev_pool_free (uncached_pools, 2%nat) 2;
             ev_pool_free (uncached_pools, 2%nat) 3] in
  let w1' := mk_sim 8192 [] [[]; [100]; [4; 5; 6; 1; 2; 3]] [[5000]; []; []]
               10000 in
  ion_system_heap_allocate uncached_buffer 73729 4096 0 sim_stocked =
    (Done (0, set_priv_virt uncached_buffer table), w', t) /\
  ion_system_heap_free buffer w' = (Done tt, w1', t1) /\
  returned t1 = acquired t /\ freed t1 = [].
Proof.
  intros table t w' buffer t1 w1'.
  assert (Hrun : ion_system_heap_allocate uncached_buffer 73729 4096 0
                   sim_stocked =
                 (Done (0, set_priv_virt uncached_buffer table), w', t))
    by (vm_compute; reflexivity).
  assert (Hfree : ion_system_heap_free buffer w' = (Done tt, w1', t1))
    by (vm_compute; reflexivity).
  split; [exact Hrun | split; [exact Hfree | ]].
  exact (proj2 (proj2
    (free_gives_back_what_allocate_took _ _ _ _ _ _ _ _ buffer _ _ _ _
       Hrun eq_refl eq_refl Hfree))).
Defined.




Section FreeFault.
Context {W : Type} {K : Kernel W}.

Lemma free_each_stops b good bad rest (w : W) :
  shrinker_free b = false ->
  Forall (fun sg => In (get_order (sg_length sg)) orders) good ->
  ~ In (get_order (sg_length bad)) orders ->
  post (for_each (fun sg => free_buffer_page b (sg_page sg)
                              (get_order (sg_length sg)))
          (good ++ bad :: rest)) w
    (fun r _ t => r = Stop BUG /\ t = map (release_event b) good).
Proof.
  intros Hs Hgood Hbad.
  induction Hgood as [ | sg good Ho _ IH] in w |- *.
  - cbn [app for_each]. apply post_bind.
    unfold free_buffer_page, order_to_index_or_BUG.
    rewrite Hs, (order_to_index_missing _ Hbad).
    apply post_bind, post_stop. auto.
  - cbn [app for_each]. apply post_bind.
    eapply post_weaken; [apply free_buffer_page_spec; left; exact Ho | ].
    intros r w1 t1 [-> ->].
    eapply post_weaken; [apply IH | ].
    intros r w2 t2 [-> ->]. split; [reflexivity | ].
    unfold release_event. reflexivity.
Qed.

End FreeFault.

(** X6. A table that is not of this heap: [ion_system_heap_free] of a
    buffer, not marked as a shrinker-originated free, with a segment
    whose order is not in the table of orders stops at the [BUG()] of
    [order_to_index] when it comes to that segment.  By then it has
    zeroed the buffer and returned the pages of the segments before it to
    their pools; it releases nothing of the segments after it. *)
Theorem free_of_foreign_segment_stops_at_BUG {W} {K : Kernel W}
    (buffer : ion_buffer) (good : sg_table_t) (bad : scatterlist)
    (rest : sg_table_t) (w : W) r w' t :
  sg_table buffer = Some (good ++ bad :: rest) ->
  shrinker_free buffer = false ->
  Forall (fun sg => In (get_order (sg_length sg)) orders) good ->
  ~ In (get_order (sg_length bad)) orders ->
  ion_system_heap_free buffer w = (r, w', t) ->
  r = Stop BUG /\
  t = ev_buffer_zero (Some (good ++ bad :: rest)) ::
      map (fun sg => ev_pool_free (origin buffer (get_order (sg_length sg)))
                       (sg_page sg)) good.
Proof.
  intros Htable Hs Hgood Hbad Hrun.
  assert (H : post (ion_system_heap_free buffer) w (fun r _ t =>
    r = Stop BUG /\
    t = ev_buffer_zero (Some (good ++ bad :: rest)) ::
        map (release_event buffer) good)).
  { unfold ion_system_heap_free. rewrite Htable, Hs. cbn [negb].
    apply post_bind. unfold post at 1, call_buffer_zero. rewrite Htable.
    eapply post_weaken; [apply free_each_stops; assumption | ].
    intros r0 w0 t0 [-> ->]. auto. }
  rewrite post_run in H. destruct (H _ _ _ Hrun) as [-> ->].
  split; [reflexivity | ]. unfold release_event. rewrite Hs. reflexivity.
Qed.

Lemma free_of_foreign_segment_stops_at_BUG_witness :
  let table := [mk_sg 1 4096 0; mk_sg 10000 12288 0; mk_sg 2 4096 0] in
  let buffer := mk_buffer 0 0 20480 (Some table) (Some table) in
  let w := mk_sim 8192 [] [[]; []; []] [[]; []; []] 10000 in
  let w' := mk_sim 8192 [] [[]; []; [1]] [[]; []; []] 10000 in
  get_order 12288 = 2 /\
  ion_system_heap_free buffer w =
    (Stop BUG, w', [ev_buffer_zero (Some table);
                    ev_pool_free (uncached_pools, 2%nat) 1]).
Proof.
  intros table buffer w w'.
  split; [reflexivity | ].
  assert (Hrun : ion_system_heap_free buffer w =
                 (Stop BUG, w', [ev_buffer_zero (Some table);
                                 ev_pool_free (uncached_pools, 2%nat) 1]))
    by (vm_compute; reflexivity).
  assert (Hgood : Forall (fun sg => In (get_order (sg_length sg)) orders)
                    [mk_sg 1 4096 0]).
  { constructor; [vm_compute; auto | constructor]. }
  assert (Hbad : ~ In (get_order (sg_length (mk_sg 10000 12288 0))) orders).
  { vm_compute. intros [H | [H | [H | H]]]; try discriminate H; exact H. }
  destruct (free_of_foreign_segment_stops_at_BUG buffer [mk_sg 1 4096 0]
              (mk_sg 10000 12288 0) [mk_sg 2 4096 0] w _ _ _
              eq_refl eq_refl Hgood Hbad Hrun) as [_ _].
  exact Hrun.
Defined.

Section ShrinkMore.
Context {W : Type} {K : Kernel W}.

Lemma inventories_app t1 t2 :
  inventories (t1 ++ t2) = inventories t1 ++ inventories t2.
Proof. apply flat_map_app. Qed.

Lemma shrink_drain_asks_no_inventory n :
  forall i gfp_mask nr_to_scan nr_freed (w : W),
  nr_to_scan <> 0 ->
  post (shrink_drain n i gfp_mask nr_to_scan nr_freed) w (fun _ _ t =>
    inventories t = []).
Proof.
  induction n as [ | n IH]; intros i gfp_mask nr_to_scan nr_freed w Hnz.
  - apply post_ret. reflexivity.
  - assert (Hn : (nr_to_scan =? 0) = false) by (apply Z.eqb_neq; exact Hnz).
    cbn [shrink_drain].
    apply post_bind, post_pool_shrink. intros r1 w1 _.
    destruct (nr_to_scan <=? sint (nr_freed + r1)).
    { apply post_ret. cbn. rewrite Hn. reflexivity. }
    apply post_bind, post_pool_shrink. intros r2 w2 _.
    destruct (nr_to_scan <=? sint (sint (nr_freed + r1) + r2)).
    { apply post_ret. cbn. rewrite Hn. reflexivity. }
    eapply post_weaken; [apply IH; exact Hnz | ].
    intros r w3 t3 H. cbn. rewrite Hn. exact H.
Qed.

(** The loop after [end:] asks every pool from index [i] on for its
    inventory and answers the [int] sum of [nr_total] and the answers. *)
Lemma shrink_inventory_sum n :
  forall i gfp_mask nr_total (w : W),
  sint nr_total = nr_total ->
  post (shrink_inventory n i gfp_mask nr_total) w (fun r _ t =>
    drains t = [] /\
    map fst (inventories t) =
      flat_map (fun i => [(uncached_pools, i); (cached_pools, i)]) (seq i n) /\
    r = Done (sint (nr_total +
                    fold_right Z.add 0 (map snd (inventories t))))).
Proof.
  induction n as [ | n IH]; intros i gfp_mask nr_total w Hint.
  - apply post_ret. cbn. rewrite Z.add_0_r, Hint.
    repeat split.
  - cbn [shrink_inventory].
    apply post_bind, post_pool_shrink. intros r1 w1 _.
    apply post_bind, post_pool_shrink. intros r2 w2 _.
    eapply post_weaken; [apply IH; apply sint_small, sint_range | ].
    intros r w3 t3 (Hd & Hp & ->). cbn.
    fold (drains t3). fold (inventories t3). rewrite Hd, Hp.
    split; [reflexivity | split; [reflexivity | ]].
    repeat first [rewrite sint_add_l | rewrite <- Z.add_assoc].
    reflexivity.
Qed.

End ShrinkMore.

(** X7. For any pools: [ion_system_heap_shrink] ends its trace with one
    inventory query to every pool, in the order of the table and in each
    class the uncached pool first, and answers the sum of their answers
    as an [int]; the requests to free pages all come before, and there
    are none for a count of zero.  What the requests freed does not enter
    the answer. *)
Theorem shrink_answers_sum_of_inventories {W} {K : Kernel W}
    (gfp_mask : gfp_t) (nr_to_scan : Z) (w : W) r w' t :
  ion_system_heap_shrink gfp_mask nr_to_scan w = (r, w', t) ->
  map fst (inventories t) = drain_order /\
  r = Done (sint (fold_right Z.add 0 (map snd (inventories t)))) /\
  exists t_drain t_inventory,
    t = t_drain ++ t_inventory /\
    inventories t_drain = [] /\ drains t_inventory = [] /\
    (nr_to_scan = 0 -> t_drain = []).
Proof.
  intros Hrun.
  assert (H : post (ion_system_heap_shrink gfp_mask nr_to_scan) w
    (fun r _ t =>
       map fst (inventories t) = drain_order /\
       r = Done (sint (fold_right Z.add 0 (map snd (inventories t)))) /\
       exists t_drain t_inventory,
         t = t_drain ++ t_inventory /\
         inventories t_drain = [] /\ drains t_inventory = [] /\
         (nr_to_scan = 0 -> t_drain = []))).
  { unfold ion_system_heap_shrink. apply post_bind.
    assert (Hfirst :
      post (if nr_to_scan =? 0 then ret 0
            else shrink_drain num_orders 0 gfp_mask nr_to_scan 0) w
        (fun r _ t => (exists x, r = Done x) /\ inventories t = [] /\
                      (nr_to_scan = 0 -> t = []))).
    { destruct (nr_to_scan =? 0) eqn:E.
      - apply post_ret. eauto.
      - apply Z.eqb_neq in E.
        pose proof (shrink_drain_done num_orders 0%nat gfp_mask nr_to_scan 0 w)
          as Hd.
        pose proof (shrink_drain_asks_no_inventory num_orders 0%nat gfp_mask
                      nr_to_scan 0 w E) as Hi.
        unfold post in *.
        destruct (shrink_drain num_orders 0 gfp_mask nr_to_scan 0 w)
          as [[r0 w0] t0].
        split; [exact Hd | split; [exact Hi | intros; contradiction]]. }
    eapply post_weaken; [exact Hfirst | ].
    intros r0 w0 t0 ([x ->] & Hi & Hz).
    eapply post_weaken; [apply shrink_inventory_sum; reflexivity | ].
    intros r1 w1 t1 (Hd & Hp & ->).
    rewrite inventories_app, Hi. cbn [app].
    split; [exact Hp | split; [reflexivity | ]].
    exists t0, t1. auto. }
  rewrite post_run in H. exact (H _ _ _ Hrun).
Qed.

Lemma shrink_answers_sum_of_inventories_witness :
  let t := [ev_pool_shrink (uncached_pools, 0%nat) 0 4 3;
            ev_pool_shrink (cached_pools, 0%nat) 0 4 4;
            ev_pool_shrink (uncached_pools, 0%nat) 0 0 0;
            ev_pool_shrink (cached_pools, 0%nat) 0 0 1;
            ev_pool_shrink (uncached_pools, 1%nat) 0 0 1;
            ev_pool_shrink (cached_pools, 1%nat) 0 0 0;
            ev_pool_shrink (uncached_pools, 2%nat) 0 0 2;
            ev_pool_shrink (cached_pools, 2%nat) 0 0 0] in
  let w' := mk_sim 8192 [] [[]; [100]; [200; 201]] [[11]; []; []] 10000 in
  ion_system_heap_shrink 0 4 sim_pressure = (Done 4, w', t) /\
  map fst (inventories t) = drain_order /\
  Done 4 = Done (sint (fold_right Z.add 0 (map snd (inventories t)))).
Proof.
  intros t w'.
  assert (Hrun : ion_system_heap_shrink 0 4 sim_pressure = (Done 4, w', t))
    by (vm_compute; reflexivity).
  split; [exact Hrun | ].
  destruct (shrink_answers_sum_of_inventories _ _ _ _ _ _ Hrun)
    as (Hp & Hr & _).
  split; [exact Hp | exact Hr].
Defined.

Lemma drained_total nr_to_scan nr_freed pools d :
  drained nr_to_scan nr_freed pools d ->
  nr_to_scan <= 2 ^ 30 ->
  0 <= nr_freed <= 2 * nr_to_scan - 1 ->
  Forall (fun x => 0 <= snd x <= nr_to_scan) d ->
  nr_freed + fold_right (fun x acc => snd x + acc) 0 d
    <= 2 * nr_to_scan - 1 /\
  ((length d < length pools)%nat ->
   nr_to_scan <= nr_freed + fold_right (fun x acc => snd x + acc) 0 d).
Proof.
  intros Hd Hn. induction Hd as [acc pools Hstop | acc pool pools r d Hlt Hd IH];
    intros Hacc Hall.
  - cbn [fold_right length]. split; [lia | ].
    intros Hlen. destruct Hstop as [Hstop | ->]; [lia | cbn in Hlen; lia].
  - inversion Hall as [ | x l Hr Hall' ]; subst. cbn [snd] in Hr.
    rewrite sint_small in IH by lia.
    destruct (IH ltac:(lia) Hall') as [IH1 IH2].
    cbn [fold_right snd length]. split; [lia | ].
    intros Hlen. assert (Hlen' : (length d < length pools)%nat) by lia.
    specialize (IH2 Hlen'). lia.
Qed.

(** X8. How far a shrink can overshoot: when every pool frees no more
    than it is asked for, [ion_system_heap_shrink] with a count
    [nr_to_scan] above zero frees fewer than twice [nr_to_scan] pages in
    all, and at least [nr_to_scan] unless it had to ask all six pools. *)
Theorem shrink_frees_less_than_twice_the_count {W} {K : Kernel W}
    (gfp_mask : gfp_t) (nr_to_scan : Z) (w : W) r w' t :
  0 < nr_to_scan <= 2 ^ 30 ->
  ion_system_heap_shrink gfp_mask nr_to_scan w = (r, w', t) ->
  Forall (fun d => 0 <= snd d <= nr_to_scan) (drains t) ->
  nr_freed_in t <= 2 * nr_to_scan - 1 /\
  ((length (drains t) < length drain_order)%nat ->
   nr_to_scan <= nr_freed_in t).
Proof.
  intros Hn Hrun Hall.
  pose proof (ion_system_heap_shrink_spec gfp_mask nr_to_scan w
                (proj1 Hn)) as H.
  rewrite post_run in H. destruct (H _ _ _ Hrun) as [_ Hd].
  unfold nr_freed_in.
  destruct (drained_total _ _ _ _ Hd (proj2 Hn) ltac:(lia) Hall) as [H1 H2].
  split; [lia | ]. intros Hlen. specialize (H2 Hlen). lia.
Qed.

Lemma shrink_frees_less_than_twice_the_count_witness :
  let t := [ev_pool_shrink (uncached_pools, 0%nat) 0 4 3;
            ev_pool_shrink (cached_pools, 0%nat) 0 4 4;
            ev_pool_shrink (uncached_pools, 0%nat) 0 0 0;
            ev_pool_shrink (cached_pools, 0%nat) 0 0 1;
            ev_pool_shrink (uncached_pools, 1%nat) 0 0 1;
            ev_pool_shrink (cached_pools, 1%nat) 0 0 0;
            ev_pool_shrink (uncached_pools, 2%nat) 0 0 2;
            ev_pool_shrink (cached_pools, 2%nat) 0 0 0] in
  let w' := mk_sim 8192 [] [[]; [100]; [200; 201]] [[11]; []; []] 10000 in
  0 < 4 <= 2 ^ 30 /\
  ion_system_heap_shrink 0 4 sim_pressure = (Done 4, w', t) /\
  Forall (fun d => 0 <= snd d <= 4) (drains t) /\
  nr_freed_in t = 7 /\
  nr_freed_in t <= 2 * 4 - 1.
Proof.
  intros t w'.
  assert (Hn : 0 < 4 <= 2 ^ 30) by (split; [reflexivity | discriminate]).
  assert (Hrun : ion_system_heap_shrink 0 4 sim_pressure = (Done 4, w', t))
    by (vm_compute; reflexivity).
  assert (Hall : Forall (fun d => 0 <= snd d <= 4) (drains t)).
  { repeat constructor; discriminate. }
  split; [exact Hn | split; [exact Hrun | split; [exact Hall | ]]].
  split; [reflexivity | ].
  exact (proj1 (shrink_frees_less_than_twice_the_count _ _ _ _ _ _
                  Hn Hrun Hall)).
Defined.

(** ** Assembly from pools that never run short *)

Lemma greedy_orders_zero : greedy_orders 0 = [].
Proof. reflexivity. Qed.

Lemma repeat_succ {A} (a : A) k :
  0 < k -> repeat a (Z.to_nat k) = a :: repeat a (Z.to_nat (k - 1)).
Proof.
  intros Hk. replace (Z.to_nat k) with (S (Z.to_nat (k - 1))) by lia.
  reflexivity.
Qed.

Lemma greedy_orders_step n :
  0 < n ->
  (256 <= n -> greedy_orders n = 8 :: greedy_orders (n - 256)) /\
  (16 <= n < 256 -> greedy_orders n = 4 :: greedy_orders (n - 16)) /\
  (n < 16 -> greedy_orders n = 0 :: greedy_orders (n - 1)).
Proof.
  intros Hn. unfold greedy_orders. split; [ | split].
  - intros H.
    replace (n - 256) with (n + (-1) * 256) by lia.
    rewrite Z.div_add, Z.mod_add by lia.
    replace (n + (-1) * 256) with (n + (-16) * 16) by lia.
    rewrite Z.mod_add by lia.
    assert (1 <= n / 256) by (apply Z.div_le_lower_bound; lia).
    rewrite (repeat_succ 8 (n / 256)) by lia.
    replace (n / 256 + -1) with (n / 256 - 1) by lia. reflexivity.
  - intros H.
    rewrite (Z.div_small n 256), (Z.div_small (n - 16) 256) by lia.
    rewrite (Z.mod_small n 256), (Z.mod_small (n - 16) 256) by lia.
    replace (n - 16) with (n + (-1) * 16) by lia.
    rewrite Z.div_add, Z.mod_add by lia.
    assert (1 <= n / 16) by (apply Z.div_le_lower_bound; lia).
    cbn [Z.to_nat repeat app].
    rewrite (repeat_succ 4 (n / 16)) by lia.
    replace (n / 16 + -1) with (n / 16 - 1) by lia. reflexivity.
  - intros H.
    rewrite (Z.div_small n 256), (Z.div_small (n - 1) 256) by lia.
    rewrite (Z.mod_small n 256), (Z.mod_small (n - 1) 256) by lia.
    rewrite (Z.div_small n 16), (Z.div_small (n - 1) 16) by lia.
    rewrite (Z.mod_small n 16), (Z.mod_small (n - 1) 16) by lia.
    cbn [Z.to_nat repeat app].
    rewrite (repeat_succ 0 n) by lia. reflexivity.
Qed.

Lemma greedy_orders_in_table n :
  Forall (fun o => In o orders) (greedy_orders n).
Proof.
  unfold greedy_orders. rewrite !Forall_app.
  repeat split; apply Forall_forall; intros o Ho;
    apply repeat_spec in Ho; subst; simpl; auto.
Qed.

Section Plentiful.
Context {W : Type} {K : Kernel W}.
Hypothesis kmalloc_succeeds : forall w : W, fst (kmalloc w) = true.
Hypothesis pools_yield :
  forall pool (w : W), fst (ion_page_pool_alloc pool w) <> None.

Lemma alloc_buffer_page_yields b o (w : W) :
  In o orders ->
  post (alloc_buffer_page b o) w (fun r _ _ => exists pg, r = Done (Some pg)).
Proof.
  intros Ho. unfold alloc_buffer_page, order_to_index_or_BUG.
  destruct (order_to_index_found o Ho) as [i [-> _]].
  apply post_bind, post_ret, post_bind, post_pool_alloc_eq.
  intros r w' E.
  match type of E with
  | ion_page_pool_alloc ?pool _ = _ => pose proof (pools_yield pool w) as Hy
  end.
  rewrite E in Hy.
  destruct r as [pg | ]; [ | contradiction Hy; reflexivity].
  apply post_ret. eauto.
Qed.

(** With [n] pages to go the scan takes a run of the largest class that
    is no more than [n] pages and within the order limit. *)
Lemma alloc_largest_available_yields b n max_order (w : W) :
  0 < n < 2 ^ 20 ->
  max_order = 8 \/ (max_order = 4 /\ n < 256) \/ (max_order = 0 /\ n < 16) ->
  post (alloc_largest_available b (PAGE_SIZE * n) max_order) w (fun r _ _ =>
    exists pg, r = Done (Some (mk_info pg
                 (if 256 <=? n then 8 else if 16 <=? n then 4 else 0)))).
Proof.
  intros Hn Hmo. unfold alloc_largest_available.
  apply post_bind, post_kmalloc_eq. intros r w1 E.
  pose proof (kmalloc_succeeds w) as Hk. rewrite E in Hk. cbn in Hk. subst r.
  cbn [negb]. unfold orders. cbn [alloc_largest_scan].
  change (order_to_size 8) with 1048576.
  change (order_to_size 4) with 65536.
  change (order_to_size 0) with 4096.
  rewrite PAGE_SIZE_val.
  assert (Htake : forall o w2 (rest : M W (option page_info)),
    In o orders ->
    post (pg <- alloc_buffer_page b o ;;
          match pg with
          | Some pg => ret (Some {| page := pg; order := o |})
          | None => rest
          end) w2
      (fun r _ _ => exists pg, r = Done (Some (mk_info pg o)))).
  { intros o w2 rest Ho. apply post_bind.
    eapply post_weaken; [apply alloc_buffer_page_yields, Ho | ].
    intros r0 w3 t3 [pg ->]. apply post_ret. eauto. }
  destruct (256 <=? n) eqn:E8.
  { apply Z.leb_le in E8.
    assert (max_order = 8) by lia. subst max_order.
    replace (4096 * n <? 1048576) with false by (symmetry; apply Z.ltb_ge; lia).
    cbn [Z.ltb Z.compare].
    apply Htake. simpl. auto. }
  apply Z.leb_gt in E8.
  replace (4096 * n <? 1048576) with true by (symmetry; apply Z.ltb_lt; lia).
  destruct (16 <=? n) eqn:E4.
  { apply Z.leb_le in E4.
    replace (4096 * n <? 65536) with false by (symmetry; apply Z.ltb_ge; lia).
    replace (max_order <? 4) with false by (symmetry; apply Z.ltb_ge; lia).
    eapply post_weaken; [apply (Htake 4); simpl; auto | ].
    intros r0 w3 t3 H. exact H. }
  apply Z.leb_gt in E4.
  replace (4096 * n <? 65536) with true by (symmetry; apply Z.ltb_lt; lia).
  replace (4096 * n <? 4096) with false by (symmetry; apply Z.ltb_ge; lia).
  replace (max_order <? 0) with false by (symmetry; apply Z.ltb_ge; lia).
  eapply post_weaken; [apply (Htake 0); simpl; auto | ].
  intros r0 w3 t3 H. exact H.
Qed.

Lemma alloc_loop_plentiful fuel :
  forall b n max_order i pages (w : W),
  0 <= n < 2 ^ 20 -> (Z.to_nat n <= fuel)%nat ->
  0 <= i -> i + n < 2 ^ 31 ->
  max_order = 8 \/ (max_order = 4 /\ n < 256) \/ (max_order = 0 /\ n < 16) ->
  post (alloc_loop fuel b (PAGE_SIZE * n) max_order i pages) w (fun r _ _ =>
    exists new,
      r = Done (true, pages ++ new, i + Z.of_nat (length new)) /\
      map order new = greedy_orders n /\
      (0 < n -> new <> [])).
Proof.
  induction fuel as [ | fuel IH]; intros b n mo i pages w Hn Hfuel Hi Hin Hmo.
  - assert (n = 0) by lia. subst n. apply post_ret.
    exists []. rewrite app_nil_r. cbn [length Z.of_nat map].
    rewrite Z.add_0_r. repeat split; [lia].
  - cbn [alloc_loop]. destruct (0 <? PAGE_SIZE * n) eqn:E.
    2:{ apply Z.ltb_ge in E. rewrite PAGE_SIZE_val in E.
        assert (n = 0) by lia. subst n. apply post_ret.
        exists []. rewrite app_nil_r. cbn [length Z.of_nat map].
        rewrite Z.add_0_r. repeat split; [lia]. }
    apply Z.ltb_lt in E. rewrite PAGE_SIZE_val in E.
    assert (Hpos : 0 < n) by lia.
    apply post_bind.
    eapply post_weaken;
      [apply alloc_largest_available_yields; [lia | exact Hmo] | ].
    intros r w1 t1 [pg ->]. cbn [order].
    destruct (greedy_orders_step n Hpos) as (G8 & G4 & G0).
    set (o := if 256 <=? n then 8 else if 16 <=? n then 4 else 0).
    assert (Ho : (o = 8 /\ 256 <= n /\ greedy_orders n = 8 :: greedy_orders (n - 2 ^ o)) \/
                 (o = 4 /\ 16 <= n < 256 /\ greedy_orders n = 4 :: greedy_orders (n - 2 ^ o)) \/
                 (o = 0 /\ n < 16 /\ greedy_orders n = 0 :: greedy_orders (n - 2 ^ o))).
    { unfold o. destruct (256 <=? n) eqn:E8.
      - apply Z.leb_le in E8. left.
        split; [reflexivity | split; [lia | apply G8; lia]].
      - apply Z.leb_gt in E8. destruct (16 <=? n) eqn:E4.
        + apply Z.leb_le in E4. right. left.
          split; [reflexivity | split; [lia | apply G4; lia]].
        + apply Z.leb_gt in E4. right. right.
          split; [reflexivity | split; [lia | apply G0; lia]]. }
    assert (Hrb : run_bytes o = PAGE_SIZE * 2 ^ o /\ 1 <= 2 ^ o <= n /\
                  In o orders).
    { destruct Ho as [(-> & ? & _) | [(-> & ? & _) | (-> & ? & _)]];
        repeat split; try reflexivity; try (simpl; auto); cbn; lia. }
    destruct Hrb as (Hrb & Hp & Hino).
    replace (ulong (PAGE_SIZE * n - run_bytes o))
      with (PAGE_SIZE * (n - 2 ^ o)).
    2:{ rewrite Hrb, ulong_small; rewrite PAGE_SIZE_val; lia. }
    rewrite (sint_small (i + 1)) by lia.
    eapply post_weaken.
    { apply IH; lia. }
    intros r w2 t2 (new & -> & Hmap & _).
    exists ({| page := pg; order := o |} :: new).
    rewrite <- app_assoc. cbn [app map length order].
    rewrite Nat2Z.inj_succ, Hmap.
    replace (i + 1 + Z.of_nat (length new))
      with (i + Z.succ (Z.of_nat (length new))) by lia.
    split; [reflexivity | split; [ | discriminate]].
    destruct Ho as [(-> & _ & ->) | [(-> & _ & ->) | (-> & _ & ->)]];
      reflexivity.
Qed.

End Plentiful.

(** No list of orders of the table that adds up to [n] pages is shorter
    than the greedy one. *)
Lemma greedy_is_shortest n l :
  0 <= n ->
  Forall (fun o => In o orders) l ->
  fold_right (fun o acc => 2 ^ o + acc) 0 l = n ->
  n / 256 + n mod 256 / 16 + n mod 16 <= Z.of_nat (length l).
Proof.
  intros Hn Hall Hsum.
  assert (Hc : exists c8 c4 c0,
    0 <= c8 /\ 0 <= c4 /\ 0 <= c0 /\
    Z.of_nat (length l) = c8 + c4 + c0 /\
    fold_right (fun o acc => 2 ^ o + acc) 0 l = 256 * c8 + 16 * c4 + c0).
  { clear Hsum. induction Hall as [ | o l Ho _ IH].
    - exists 0, 0, 0. cbn. lia.
    - destruct IH as (c8 & c4 & c0 & H8 & H4 & H0 & Hlen & Hs).
      cbn [fold_right length]. rewrite Nat2Z.inj_succ, Hs, Hlen.
      destruct (orders_cases _ Ho) as [-> | [-> | ->]].
      + exists (c8 + 1), c4, c0. change (2 ^ 8) with 256. lia.
      + exists c8, (c4 + 1), c0. change (2 ^ 4) with 16. lia.
      + exists c8, c4, (c0 + 1). change (2 ^ 0) with 1. lia. }
  destruct Hc as (c8 & c4 & c0 & H8 & H4 & H0 & Hlen & Hs).
  rewrite Hlen. rewrite Hsum in Hs.
  pose proof (Z.div_mod n 256 ltac:(lia)) as D1.
  pose proof (Z.mod_pos_bound n 256 ltac:(lia)) as B1.
  pose proof (Z.div_mod (n mod 256) 16 ltac:(lia)) as D2.
  pose proof (Z.mod_pos_bound (n mod 256) 16 ltac:(lia)) as B2.
  assert (E : (n mod 256) mod 16 = n mod 16).
  { rewrite D1 at 2. replace (256 * (n / 256) + n mod 256)
      with (n mod 256 + (16 * (n / 256)) * 16) by lia.
    rewrite Z.mod_add by lia. reflexivity. }
  rewrite E in D2, B2.
  assert (0 <= n / 256) by (apply Z.div_pos; lia).
  assert (0 <= n mod 256 / 16) by (apply Z.div_pos; lia).
  lia.
Qed.

(** X9. With a slab allocator that does not fail and pools that always
    have a page for the asking, [ion_system_heap_allocate] of a size that
    passes its two guards succeeds, and for [n] pages to cover its table
    is the greedy one: [n / 256] runs of order 8, then [n mod 256 / 16]
    runs of order 4, then [n mod 16] single pages; no list of orders of
    the table that adds up to [n] pages is shorter. *)
Theorem allocate_is_greedy_when_pools_yield {W} {K : Kernel W}
    (b : ion_buffer) (size align flags : Z) (w : W) r w' t :
  (forall w : W, fst (kmalloc w) = true) ->
  (forall pool (w : W), fst (ion_page_pool_alloc pool w) <> None) ->
  (forall nents (w : W), 0 < nents -> fst (sg_alloc_table nents w) = 0) ->
  align <= PAGE_SIZE ->
  size / PAGE_SIZE <= totalram_pages w / 2 ->
  0 < PAGE_ALIGN size ->
  ion_system_heap_allocate b size align flags w = (r, w', t) ->
  let n := PAGE_ALIGN size / PAGE_SIZE in
  exists table,
    r = Done (0, set_priv_virt b table) /\
    map (fun sg => get_order (sg_length sg)) table = greedy_orders n /\
    Z.of_nat (length table) = n / 256 + n mod 256 / 16 + n mod 16 /\
    (forall l, Forall (fun o => In o orders) l ->
               fold_right (fun o acc => 2 ^ o + acc) 0 l = n ->
               (length table <= length l)%nat).
Proof.
  intros Hk Hp Hsg Halign Hsize Hpos Hrun n.
  assert (H : post (ion_system_heap_allocate b size align flags) w
    (fun r _ _ => exists new,
       r = Done (0, set_priv_virt b (map sg_of_info new)) /\
       map order new = greedy_orders n)).
  { unfold ion_system_heap_allocate.
    replace (PAGE_SIZE <? align) with false by (symmetry; apply Z.ltb_ge; lia).
    apply post_bind. unfold post at 1, read_totalram_pages.
    replace (totalram_pages w / 2 <? size / PAGE_SIZE) with false
      by (symmetry; apply Z.ltb_ge; lia).
    apply post_bind.
    assert (Hn : PAGE_ALIGN size = PAGE_SIZE * n).
    { unfold n. rewrite PAGE_ALIGN_eq, PAGE_SIZE_val.
      rewrite (Z.mul_comm 4096), Z.div_mul by lia. lia. }
    assert (Hcount : 0 < n < 2 ^ 20).
    { pose proof (PAGE_ALIGN_range size). rewrite Hn, PAGE_SIZE_val in *. lia. }
    rewrite Hn, alloc_fuel_pages by lia.
    eapply post_weaken.
    { apply (alloc_loop_plentiful Hk Hp); try lia. left. reflexivity. }
    intros r0 w1 t1 (new & -> & Hmap & Hne). cbn [app negb].
    apply post_bind, post_kmalloc_eq. intros r1 w2 E.
    pose proof (Hk w1) as Hk1. rewrite E in Hk1. cbn in Hk1. subst r1.
    cbn [negb].
    apply post_bind, post_sg_alloc_table_eq. intros r2 w3 E2.
    assert (Hlen : 0 < 0 + Z.of_nat (length new)).
    { destruct new; [contradiction (Hne ltac:(lia)); reflexivity | cbn; lia]. }
    pose proof (Hsg _ w2 Hlen) as Hsg2. rewrite E2 in Hsg2. cbn in Hsg2.
    subst r2. cbn [Z.eqb negb].
    apply post_ret. eauto. }
  rewrite post_run in H. destruct (H _ _ _ Hrun) as (new & -> & Hmap).
  exists (map sg_of_info new).
  assert (Hall : Forall (fun info => In (order info) orders) new).
  { pose proof (greedy_orders_in_table n) as Hg. rewrite <- Hmap in Hg.
    rewrite Forall_map in Hg. exact Hg. }
  assert (Hn0 : 0 <= n).
  { unfold n. apply Z.div_pos; [ | rewrite PAGE_SIZE_val; lia].
    apply PAGE_ALIGN_range. }
  assert (Hlen : Z.of_nat (length (map sg_of_info new)) =
                 n / 256 + n mod 256 / 16 + n mod 16).
  { rewrite length_map, <- (length_map order), Hmap.
    unfold greedy_orders. rewrite !length_app, !repeat_length.
    pose proof (Z.div_pos n 256).
    pose proof (Z.mod_pos_bound n 256).
    pose proof (Z.div_pos (n mod 256) 16).
    pose proof (Z.mod_pos_bound n 16).
    lia. }
  split; [reflexivity | split; [ | split; [exact Hlen | ]]].
  - rewrite table_orders by exact Hall. exact Hmap.
  - intros l Hl Hsum.
    pose proof (greedy_is_shortest n l Hn0 Hl Hsum). lia.
Qed.

Lemma allocate_is_greedy_when_pools_yield_witness :
  let size := 300 * PAGE_SIZE - 5 in
  let run := ion_system_heap_allocate uncached_buffer size PAGE_SIZE 0
               (1000 : Z) in
  (forall w : Z, fst (kmalloc w) = true) /\
  (forall pool (w : Z), fst (ion_page_pool_alloc pool w) <> None) /\
  size / PAGE_SIZE <= totalram_pages (1000 : Z) / 2 /\
  0 < PAGE_ALIGN size /\
  exists table,
    fst (fst run) = Done (0, set_priv_virt uncached_buffer table) /\
    map (fun sg => get_order (sg_length sg)) table =
      [8; 4; 4; 0; 0; 0; 0; 0; 0; 0; 0; 0; 0; 0; 0] /\
    Z.of_nat (length table) = 15.
Proof.
  intros size run.
  assert (Hk : forall w : Z, fst (kmalloc w) = true) by reflexivity.
  assert (Hp : forall pool (w : Z), fst (ion_page_pool_alloc pool w) <> None)
    by discriminate.
  assert (Hsg : forall nents (w : Z), 0 < nents ->
                  fst (sg_alloc_table nents w) = 0) by reflexivity.
  assert (Halign : PAGE_SIZE <= PAGE_SIZE) by discriminate.
  assert (Hsize : size / PAGE_SIZE <= totalram_pages (1000 : Z) / 2)
    by discriminate.
  assert (Hpos : 0 < PAGE_ALIGN size) by reflexivity.
  assert (Hrun : run = (fst (fst run), snd (fst run), snd run))
    by (destruct run as [[r0 w0] t0]; reflexivity).
  split; [exact Hk | split; [exact Hp | split; [exact Hsize | ]]].
  split; [exact Hpos | ].
  destruct (allocate_is_greedy_when_pools_yield uncached_buffer size PAGE_SIZE
              0 (1000 : Z) _ _ _ Hk Hp Hsg Halign Hsize Hpos Hrun)
    as (table & Hr & Ho & Hl & _).
  exists table. split; [exact Hr | split; [exact Ho | exact Hl]].
Defined.

(** ** Further properties of the contiguous heap *)

Lemma fls_covers q : 0 <= q -> q < 2 ^ fls q.
Proof.
  intros Hq. unfold fls. destruct (q <=? 0) eqn:E.
  - apply Z.leb_le in E. cbn. lia.
  - apply Z.leb_gt in E. apply Z.log2_spec in E. lia.
Qed.

(** The run of [get_order(len)] has room for the page-aligned length. *)
Lemma contig_run_covers len :
  0 <= Z.shiftr (PAGE_ALIGN len) PAGE_SHIFT <= 2 ^ get_order len.
Proof.
  unfold get_order, PAGE_SHIFT.
  rewrite !Z.shiftr_div_pow2 by lia. change (2 ^ 12) with 4096.
  rewrite PAGE_ALIGN_eq, PAGE_SIZE_val.
  rewrite (Z.mul_comm 4096), Z.div_mul by lia.
  pose proof (ulong_range (len - 1)) as Hx.
  pose proof (ulong_range (len + (4096 - 1))) as Hy.
  assert (Hq : 0 <= ulong (len - 1) / 4096) by (apply Z.div_pos; lia).
  pose proof (fls_covers _ Hq) as Hf.
  split; [apply Z.div_pos; lia | ].
  assert (E : ulong (len + (4096 - 1)) = (ulong (len - 1) + 4096) mod 2 ^ 32).
  { unfold ulong, BITS_PER_LONG. rewrite Zplus_mod_idemp_l.
    f_equal. lia. }
  destruct (Z_lt_ge_dec (ulong (len - 1) + 4096) (2 ^ 32)) as [Hlt | Hge].
  - rewrite E, Z.mod_small by lia.
    replace (ulong (len - 1) + 4096) with (ulong (len - 1) + 1 * 4096) by lia.
    rewrite Z.div_add by lia. lia.
  - assert (E2 : (ulong (len - 1) + 4096) mod 2 ^ 32 =
                 ulong (len - 1) + 4096 - 2 ^ 32).
    { symmetry. apply (Z.mod_unique _ _ 1); lia. }
    rewrite E, E2, Z.div_small by lia.
    assert (0 < 2 ^ fls (ulong (len - 1) / 4096))
      by (apply Z.pow_pos_nonneg; [lia | unfold fls;
          destruct (_ <=? 0); [lia | ];
          pose proof (Z.log2_nonneg (ulong (len - 1) / 4096)); lia]).
    lia.
Qed.

Lemma range_app from n m :
  range from (n + m) = range from n ++ range (from + Z.of_nat n) m.
Proof.
  induction n as [ | n IH] in from |- *.
  - cbn. rewrite Z.add_0_r. reflexivity.
  - cbn [Nat.add range app]. rewrite IH, Nat2Z.inj_succ.
    replace (from + 1 + Z.of_nat n) with (from + Z.succ (Z.of_nat n)) by lia.
    reflexivity.
Qed.

(** The pages from the page-aligned length on, then the pages before
    it, are the pages of the run, each once. *)
Lemma contig_pages_partition (pg : page_ptr) len :
  let order := get_order len in
  let first := Z.shiftr (PAGE_ALIGN len) PAGE_SHIFT in
  Permutation
    (map (fun i => (pg + i, 0))
       (range first (Z.to_nat (2 ^ order - first))) ++
     map (fun i => (pg + i, 0)) (range 0 (Z.to_nat first)))
    (map (fun i => (pg + i, 0)) (range 0 (Z.to_nat (2 ^ order)))).
Proof.
  intros order first.
  pose proof (contig_run_covers len) as Hc. fold order first in Hc.
  replace (Z.to_nat (2 ^ order))
    with (Z.to_nat first + Z.to_nat (2 ^ order - first))%nat by lia.
  rewrite range_app, map_app, Z2Nat.id, Z.add_0_l by lia.
  apply Permutation_app_comm.
Qed.

Section ContigMore.
Context {W : Type} {K : Kernel W}.

Lemma ion_system_contig_heap_free_spec buffer pg len0 rest (w : W) :
  priv_virt buffer = Some (mk_sg pg len0 0 :: rest) ->
  post (ion_system_contig_heap_free buffer) w (fun r _ t =>
    r = Done tt /\
    t = map (fun i => ev_free_pages (pg + i) 0)
          (range 0 (Z.to_nat (Z.shiftr (PAGE_ALIGN (size buffer))
                                PAGE_SHIFT)))).
Proof.
  intros Hp. unfold ion_system_contig_heap_free. rewrite Hp.
  cbn [sg_page]. apply free_pages_each_spec.
Qed.

End ContigMore.

(** X10. No page of a contiguous run is lost or released twice: after a
    successful [ion_system_contig_heap_allocate] of [len] bytes,
    [ion_system_contig_heap_free] of the buffer with that table and with
    a size that page-aligns as [len] does ends, and the pages the two
    calls gave to [__free_page] are the [2 ^ order] pages of the run,
    each exactly once. *)
Theorem contig_free_completes_the_run {W} {K : Kernel W}
    (b : ion_buffer) (len align flags : Z) (w : W) b' w' t
    (buffer : ion_buffer) (w1 : W) r1 w1' t1 :
  ion_system_contig_heap_allocate b len align flags w =
    (Done (0, b'), w', t) ->
  priv_virt buffer = priv_virt b' ->
  PAGE_ALIGN (size buffer) = PAGE_ALIGN len ->
  ion_system_contig_heap_free buffer w1 = (r1, w1', t1) ->
  r1 = Done tt /\
  exists pg,
    In (ev_alloc_pages low_order_gfp_flags (get_order len) (Some pg)) t /\
    Permutation (freed t ++ freed t1)
      (map (fun i => (pg + i, 0))
         (range 0 (Z.to_nat (2 ^ get_order len)))).
Proof.
  intros Hrun Hp Hsize Hfree.
  pose proof (ion_system_contig_heap_allocate_spec b len align flags w) as H.
  cbn zeta in H. rewrite post_run in H. specialize (H _ _ _ Hrun).
  destruct H as (rv & b0 & Heq & H). injection Heq as <- <-.
  destruct H as [(_ & Hrv & _) | [(_ & Hrv & _) | (pg & _ & H)]];
    [discriminate Hrv | discriminate Hrv | ].
  destruct H as [(_ & -> & ->) | (Hrv & _)]; [ | contradiction Hrv; reflexivity].
  cbn [priv_virt set_priv_virt] in Hp.
  pose proof (ion_system_contig_heap_free_spec buffer pg _ [] w1 Hp) as Hf.
  rewrite post_run in Hf. destruct (Hf _ _ _ Hfree) as [-> ->].
  split; [reflexivity | ]. exists pg. split; [left; reflexivity | ].
  rewrite Hsize, !freed_app, !freed_free_pages. cbn [freed flat_map app].
  rewrite app_nil_r. apply contig_pages_partition.
Qed.

Lemma contig_free_completes_the_run_witness :
  let t := [ev_alloc_pages 0 2 (Some 10000); ev_split_page 10000 2;
            ev_free_pages 10003 0; ev_sync_for_device 10000 12288] in
  let w' := mk_sim 8192 [] [[]; [100]; [1; 2; 3; 4; 5; 6]] [[5000]; []; []]
              10004 in
  let table := [mk_sg 10000 12288 0] in
  let buffer := mk_buffer 0 0 8193 (Some table) (Some table) in
  let t1 := [ev_free_pages 10000 0; ev_free_pages 10001 0;
             ev_free_pages 10002 0] in
  ion_system_contig_heap_allocate uncached_buffer 8193 4096 0 sim_stocked =
    (Done (0, set_priv_virt uncached_buffer table), w', t) /\
  ion_system_contig_heap_free buffer w' = (Done tt, w', t1) /\
  freed t ++ freed t1 = [(10003, 0); (10000, 0); (10001, 0); (10002, 0)] /\
  exists pg,
    In (ev_alloc_pages low_order_gfp_flags (get_order 8193) (Some pg)) t /\
    Permutation (freed t ++ freed t1)
      (map (fun i => (pg + i, 0))
         (range 0 (Z.to_nat (2 ^ get_order 8193)))).
Proof.
  intros t w' table buffer t1.
  assert (Hrun : ion_system_contig_heap_allocate uncached_buffer 8193 4096 0
                   sim_stocked =
                 (Done (0, set_priv_virt uncached_buffer table), w', t))
    by (vm_compute; reflexivity).
  assert (Hfree : ion_system_contig_heap_free buffer w' = (Done tt, w', t1))
    by (vm_compute; reflexivity).
  split; [exact Hrun | split; [exact Hfree | split; [reflexivity | ]]].
  exact (proj2 (contig_free_completes_the_run _ _ _ _ _ _ _ _ buffer _ _ _ _
                  Hrun eq_refl eq_refl Hfree)).
Defined.

(** X11. No page leaks when [ion_system_contig_heap_allocate] fails
    after it obtained its run, because the [kmalloc] of the table or
    [sg_alloc_table] failed: it leaves the buffer as it was, and the
    pages it gave to [__free_page], first the trimmed ones and then the
    others, are the [2 ^ order] pages of the run, each exactly once. *)
Theorem contig_allocate_failure_frees_the_run {W} {K : Kernel W}
    (b : ion_buffer) (len align flags : Z) (w : W) rv b' w' t pg :
  ion_system_contig_heap_allocate b len align flags w =
    (Done (rv, b'), w', t) ->
  rv <> 0 ->
  In (ev_alloc_pages low_order_gfp_flags (get_order len) (Some pg)) t ->
  b' = b /\
  Permutation (freed t)
    (map (fun i => (pg + i, 0)) (range 0 (Z.to_nat (2 ^ get_order len)))).
Proof.
  intros Hrun Hrv Hin.
  pose proof (ion_system_contig_heap_allocate_spec b len align flags w) as H.
  cbn zeta in H. rewrite post_run in H. specialize (H _ _ _ Hrun).
  destruct H as (rv0 & b0 & Heq & H). injection Heq as <- <-.
  destruct H as [(_ & _ & _ & ->) | [(_ & _ & _ & ->) | (pg0 & _ & H)]].
  - contradiction Hin.
  - destruct Hin as [Hin | []]. discriminate Hin.
  - destruct H as [(Hz & _) | (_ & -> & ->)]; [contradiction Hrv | ].
    split; [reflexivity | ].
    assert (pg0 = pg).
    { destruct Hin as [Hin | Hin]; [injection Hin as ->; reflexivity | ].
      destruct Hin as [Hin | Hin]; [discriminate Hin | ].
      cbn [app] in Hin.
      apply in_app_or in Hin. destruct Hin as [Hin | Hin];
        apply in_map_iff in Hin; destruct Hin as (i & Hi & _);
        discriminate Hi. }
    subst pg0.
    rewrite !freed_app, !freed_free_pages. cbn [freed flat_map app].
    apply contig_pages_partition.
Qed.

Lemma contig_allocate_failure_frees_the_run_witness :
  let w := mk_sim 8192 [true] [[]; []; []] [[]; []; []] 10000 in
  let w' := mk_sim 8192 [] [[]; []; []] [[]; []; []] 10004 in
  let t := [ev_alloc_pages 0 2 (Some 10000); ev_split_page 10000 2;
            ev_free_pages 10003 0; ev_free_pages 10000 0;
            ev_free_pages 10001 0; ev_free_pages 10002 0] in
  ion_system_contig_heap_allocate uncached_buffer 8193 4096 0 w =
    (Done (- ENOMEM, uncached_buffer), w', t) /\
  - ENOMEM <> 0 /\
  In (ev_alloc_pages low_order_gfp_flags (get_order 8193) (Some 10000)) t /\
  Permutation (freed t)
    (map (fun i => (10000 + i, 0))
       (range 0 (Z.to_nat (2 ^ get_order 8193)))).
Proof.
  intros w w' t.
  assert (Hrun : ion_system_contig_heap_allocate uncached_buffer 8193 4096 0
                   w = (Done (- ENOMEM, uncached_buffer), w', t))
    by (vm_compute; reflexivity).
  assert (Hrv : - ENOMEM <> 0) by discriminate.
  assert (Hin : In (ev_alloc_pages low_order_gfp_flags (get_order 8193)
                      (Some 10000)) t)
    by (left; reflexivity).
  split; [exact Hrun | split; [exact Hrv | split; [exact Hin | ]]].
  exact (proj2 (contig_allocate_failure_frees_the_run _ _ _ _ _ _ _ _ _ _
                  Hrun Hrv Hin)).
Defined.

Lemma get_order_top len :
  0 <= len < 2 ^ 32 -> len = 0 \/ 2 ^ 31 < len -> get_order len = 20.
Proof.
  intros Hl Hbig. unfold get_order, fls, PAGE_SHIFT.
  rewrite Z.shiftr_div_pow2 by lia. change (2 ^ 12) with 4096.
  assert (Hx : 2 ^ 31 <= ulong (len - 1) < 2 ^ 32).
  { unfold ulong, BITS_PER_LONG. destruct Hbig as [-> | Hbig].
    - cbn. lia.
    - rewrite Z.mod_small; lia. }
  assert (Hq : 2 ^ 19 <= ulong (len - 1) / 4096 < 2 ^ 20).
  { split; [apply Z.div_le_lower_bound; lia
           | apply Z.div_lt_upper_bound; lia]. }
  destruct (ulong (len - 1) / 4096 <=? 0) eqn:E;
    [apply Z.leb_le in E; lia | ].
  rewrite (Z.log2_unique _ 19); [reflexivity | lia | exact Hq].
Qed.

(** X12. Where the size of the run wraps: for a length of zero or above
    2 GiB, [get_order] answers 20 and [PAGE_SIZE << order] is zero in
    [unsigned long], so [ion_system_contig_heap_allocate] answers
    [-EINVAL] for every alignment above zero, without asking for a
    page. *)
Theorem contig_allocate_rejects_where_shift_wraps {W} {K : Kernel W}
    (b : ion_buffer) (len align flags : Z) (w : W) r w' t :
  0 <= len < 2 ^ 32 ->
  len = 0 \/ 2 ^ 31 < len ->
  0 < align ->
  ion_system_contig_heap_allocate b len align flags w = (r, w', t) ->
  ulong (Z.shiftl PAGE_SIZE (get_order len)) = 0 /\
  r = Done (- EINVAL, b) /\ t = [] /\ w' = w.
Proof.
  intros Hl Hbig Halign Hrun.
  pose proof (get_order_top len Hl Hbig) as Ho.
  unfold ion_system_contig_heap_allocate in Hrun. rewrite Ho in *.
  change (ulong (Z.shiftl PAGE_SIZE 20)) with 0 in *.
  apply Z.ltb_lt in Halign. rewrite Halign in Hrun.
  unfold ret in Hrun. injection Hrun as <- <- <-. auto.
Qed.

Lemma contig_allocate_rejects_where_shift_wraps_witness :
  0 <= 2 ^ 31 + 1 < 2 ^ 32 /\
  (2 ^ 31 + 1 = 0 \/ 2 ^ 31 < 2 ^ 31 + 1) /\
  0 < 1 /\
  ion_system_contig_heap_allocate uncached_buffer (2 ^ 31 + 1) 1 0
    sim_stocked = (Done (- EINVAL, uncached_buffer), sim_stocked, []) /\
  ulong (Z.shiftl PAGE_SIZE (get_order (2 ^ 31 + 1))) = 0.
Proof.
  assert (Hl : 0 <= 2 ^ 31 + 1 < 2 ^ 32) by (split; [discriminate | reflexivity]).
  assert (Hbig : 2 ^ 31 + 1 = 0 \/ 2 ^ 31 < 2 ^ 31 + 1) by (right; reflexivity).
  assert (Halign : 0 < 1) by reflexivity.
  assert (Hrun : ion_system_contig_heap_allocate uncached_buffer (2 ^ 31 + 1) 1
                   0 sim_stocked =
                 (Done (- EINVAL, uncached_buffer), sim_stocked, []))
    by (vm_compute; reflexivity).
  split; [exact Hl | split; [exact Hbig | split; [exact Halign | ]]].
  split; [exact Hrun | ].
  exact (proj1 (contig_allocate_rejects_where_shift_wraps _ _ _ _ _ _ _ _
                  Hl Hbig Halign Hrun)).
Defined.

(** ** The life of the pools *)

Section Life.
Import Lifecycle.
Context {W : Type} {K : Kernel W} {F : PoolFactory W}.

Lemma created_app t1 t2 : created (t1 ++ t2) = created t1 ++ created t2.
Proof. apply flat_map_app. Qed.

Lemma destroyed_app t1 t2 :
  destroyed (t1 ++ t2) = destroyed t1 ++ destroyed t2.
Proof. apply flat_map_app. Qed.

Lemma obtained_app t1 t2 : obtained (t1 ++ t2) = obtained t1 ++ obtained t2.
Proof. apply flat_map_app. Qed.

Lemma released_app t1 t2 : released (t1 ++ t2) = released t1 ++ released t2.
Proof. apply flat_map_app. Qed.

Lemma requested_app t1 t2 :
  requested (t1 ++ t2) = requested t1 ++ requested t2.
Proof. apply flat_map_app. Qed.

Lemma present_some l : present (map Some l) = l.
Proof.
  induction l as [ | p l IH]; [reflexivity | ].
  cbn. unfold present in IH. rewrite IH. reflexivity.
Qed.

(** [ion_system_heap_destroy_pools] destroys the pools of the slots that
    are not [NULL], in the order of the slots, and calls nothing else. *)
Lemma ion_system_heap_destroy_pools_spec pools (w : W) :
  length pools = num_orders ->
  exists w' t,
    ion_system_heap_destroy_pools pools w = (tt, w', t) /\
    destroyed t = present pools /\ created t = [] /\
    obtained t = [] /\ released t = [] /\ requested t = [].
Proof.
  intros Hlen.
  destruct pools as [ | a [ | b [ | c [ | d l]]]]; try discriminate Hlen.
  unfold ion_system_heap_destroy_pools, num_orders, orders.
  cbn [length seq each nth].
  destruct a, b, c; unfold lbind, call_pool_destroy, lret;
    do 2 eexists; (split; [reflexivity | repeat split]).
Qed.

(** All or nothing: on arrays of [NULL] slots
    [ion_system_heap_create_pools] either answers 0 with a pool in every
    slot, or answers 1 having destroyed every pool it made. *)
Lemma ion_system_heap_create_pools_spec (w : W) rc pools w' t :
  ion_system_heap_create_pools (repeat None num_orders) w =
    ((rc, pools), w', t) ->
  obtained t = [] /\ released t = [] /\
  ((rc = 0 /\ destroyed t = [] /\ pools = map Some (created t) /\
    length (created t) = num_orders /\
    requested t = [(high_order_gfp_flags, 8); (high_order_gfp_flags, 4);
                   (low_order_gfp_flags, 0)]) \/
   (rc = 1 /\ destroyed t = created t /\
    (length (created t) < num_orders)%nat /\
    requested t =
      firstn (S (length (created t)))
        [(high_order_gfp_flags, 8); (high_order_gfp_flags, 4);
         (low_order_gfp_flags, 0)])).
Proof.
  unfold ion_system_heap_create_pools, num_orders, orders.
  cbn [length repeat create_pools_from Z.eqb negb set_nth].
  unfold lbind, call_pool_create, lret.
  unfold ion_system_heap_destroy_pools, num_orders, orders.
  cbn [length seq each nth].
  unfold lbind, call_pool_destroy, lret.
  destruct (ion_page_pool_create high_order_gfp_flags 8 w) as [[p8 | ] w1].
  2:{ intros H. injection H as <- <- <- <-. cbn.
      repeat split. right. repeat split. lia. }
  destruct (ion_page_pool_create high_order_gfp_flags 4 w1) as [[p4 | ] w2].
  2:{ intros H. injection H as <- <- <- <-. cbn.
      repeat split. right. repeat split. lia. }
  destruct (ion_page_pool_create low_order_gfp_flags 0 w2) as [[p0 | ] w3].
  2:{ intros H. injection H as <- <- <- <-. cbn.
      repeat split. right. repeat split. lia. }
  intros H. injection H as <- <- <- <-. cbn.
  repeat split. left. repeat split.
Qed.

End Life.

Section LifeProperties.
Import Lifecycle.
Context {W : Type} {K : Kernel W} {F : PoolFactory W}.

(** X13. All or nothing, as the comment of the function has it: on an
    array of [NULL] slots [ion_system_heap_create_pools] asks for the
    pools of orders 8, 4 and 0, the first two with
    [high_order_gfp_flags] and the last with [low_order_gfp_flags].  It
    answers 0 with a pool in every slot and none destroyed, or it stops
    at the first pool that cannot be made and answers 1, having destroyed
    every pool it made, once each. *)
Theorem create_pools_is_all_or_nothing (w : W) rc pools w' t :
  ion_system_heap_create_pools (repeat None num_orders) w =
    ((rc, pools), w', t) ->
  (rc = 0 /\ destroyed t = [] /\ pools = map Some (created t) /\
   length (created t) = num_orders /\
   requested t = [(high_order_gfp_flags, 8); (high_order_gfp_flags, 4);
                  (low_order_gfp_flags, 0)]) \/
  (rc = 1 /\ destroyed t = created t /\
   (length (created t) < num_orders)%nat /\
   requested t =
     firstn (S (length (created t)))
       [(high_order_gfp_flags, 8); (high_order_gfp_flags, 4);
        (low_order_gfp_flags, 0)]).
Proof.
  intros Hrun.
  exact (proj2 (proj2
    (ion_system_heap_create_pools_spec w rc pools w' t Hrun))).
Qed.

(** X14. No leak when [ion_system_heap_create] fails: whichever of its
    three [kzalloc] calls or six pools fails, it answers
    [ERR_PTR(-ENOMEM)], the pools it destroyed are the pools it made and
    the blocks it freed are the blocks it obtained, each exactly once. *)
Theorem heap_create_failure_leaks_nothing (w : W) e w' t :
  ion_system_heap_create w = (inr e, w', t) ->
  e = - ENOMEM /\
  Permutation (destroyed t) (created t) /\
  Permutation (released t) (obtained t).
Proof.
  unfold ion_system_heap_create, lbind, call_kzalloc, call_kfree, lret.
  destruct (kzalloc sizeof_ion_system_heap w) as [[h | ] w1].
  2:{ intros H. injection H as <- <- <-. cbn. auto. }
  destruct (kzalloc pools_size w1) as [[u | ] w2].
  2:{ intros H. injection H as <- <- <-. cbn. auto. }
  destruct (kzalloc pools_size w2) as [[c | ] w3].
  2:{ intros H. injection H as <- <- <-. cbn.
      repeat split; auto. apply perm_swap. }
  destruct (ion_system_heap_create_pools (repeat None num_orders) w3)
    as [[[rc1 us] w4] t4] eqn:E1.
  apply ion_system_heap_create_pools_spec in E1.
  destruct E1 as (Ho1 & Hr1 & [(-> & Hd1 & Hp1 & Hl1 & _) | (-> & Hd1 & _)]).
  2:{ cbn [Z.eqb negb]. intros H. injection H as <- <- <-.
      read_life_trace. rewrite Hd1, Ho1, Hr1. cbn [app].
      repeat split; auto.
      apply Permutation_sym, (Permutation_rev [h; u; c]). }
  cbn [Z.eqb negb].
  destruct (ion_system_heap_create_pools (repeat None num_orders) w4)
    as [[[rc2 cs] w5] t5] eqn:E2.
  apply ion_system_heap_create_pools_spec in E2.
  destruct E2 as (Ho2 & Hr2 & [(-> & _) | (-> & Hd2 & _)]).
  { cbn [Z.eqb negb]. intros H. discriminate H. }
  cbn [Z.eqb negb].
  assert (Hus : length us = num_orders)
    by (rewrite Hp1, length_map; exact Hl1).
  destruct (ion_system_heap_destroy_pools_spec us w5 Hus)
    as (w6 & t6 & -> & Hd6 & Hc6 & Ho6 & Hr6 & _).
  intros H. injection H as <- <- <-.
  rewrite Hp1, present_some in Hd6.
  read_life_trace.
  rewrite Hd1, Hd2, Hd6, Hc6, Ho1, Ho2, Ho6, Hr1, Hr2, Hr6.
  cbn [app]. rewrite !app_nil_r.
  split; [reflexivity | split].
  - apply Permutation_app_comm.
  - apply Permutation_sym, (Permutation_rev [h; u; c]).
Qed.

(** X15. What a successful [ion_system_heap_create] has done: it
    obtained three blocks, for the heap and for the two arrays, made six
    pools, the uncached bank before the cached one and in each the orders
    8, 4 and 0 with the policies of X13, filled the slots of the two
    arrays with them in that order, destroyed and freed nothing, and set
    the operations, the type, the [DEFER_FREE] flag and the debug hook of
    a system heap. *)
Theorem heap_create_success (w : W) sys_heap w' t :
  ion_system_heap_create w = (inl sys_heap, w', t) ->
  destroyed t = [] /\ released t = [] /\
  obtained t = [heap_block (heap sys_heap); block (uncached_pools sys_heap);
                block (cached_pools sys_heap)] /\
  slots (uncached_pools sys_heap) ++ slots (cached_pools sys_heap) =
    map Some (created t) /\
  length (slots (uncached_pools sys_heap)) = num_orders /\
  length (slots (cached_pools sys_heap)) = num_orders /\
  requested t = [(high_order_gfp_flags, 8); (high_order_gfp_flags, 4);
                 (low_order_gfp_flags, 0);
                 (high_order_gfp_flags, 8); (high_order_gfp_flags, 4);
                 (low_order_gfp_flags, 0)] /\
  ops (heap sys_heap) = system_heap_ops /\
  type (heap sys_heap) = ION_HEAP_TYPE_SYSTEM /\
  flags (heap sys_heap) = ION_HEAP_FLAG_DEFER_FREE /\
  debug_show (heap sys_heap) = true.
Proof.
  unfold ion_system_heap_create, lbind, call_kzalloc, call_kfree, lret.
  destruct (kzalloc sizeof_ion_system_heap w) as [[h | ] w1];
    [ | intros H; discriminate H].
  destruct (kzalloc pools_size w1) as [[u | ] w2];
    [ | intros H; discriminate H].
  destruct (kzalloc pools_size w2) as [[c | ] w3];
    [ | intros H; discriminate H].
  destruct (ion_system_heap_create_pools (repeat None num_orders) w3)
    as [[[rc1 us] w4] t4] eqn:E1.
  apply ion_system_heap_create_pools_spec in E1.
  destruct E1 as (Ho1 & Hr1 & [(-> & Hd1 & Hp1 & Hl1 & Hq1) | (-> & _)]);
    cbn [Z.eqb negb]; [ | intros H; discriminate H].
  destruct (ion_system_heap_create_pools (repeat None num_orders) w4)
    as [[[rc2 cs] w5] t5] eqn:E2.
  apply ion_system_heap_create_pools_spec in E2.
  destruct E2 as (Ho2 & Hr2 & [(-> & Hd2 & Hp2 & Hl2 & Hq2) | (-> & _)]);
    cbn [Z.eqb negb].
  2:{ destruct (ion_system_heap_destroy_pools us w5) as [[x w6] t6].
      intros H. discriminate H. }
  intros H. injection H as <- <- <-.
  cbn [heap uncached_pools cached_pools heap_block block slots
         ops type flags debug_show].
  rewrite Hp1, Hp2, !length_map, Hl1, Hl2, <- map_app.
  read_life_trace.
  rewrite Hd1, Hd2, Ho1, Ho2, Hr1, Hr2, Hq1, Hq2.
  cbn [app]. rewrite !app_nil_r.
  repeat split; auto.
Qed.

(** X16. Round trip: [ion_system_heap_destroy] of the heap a successful
    [ion_system_heap_create] made destroys the six pools that were made,
    in the order in which they were made and each once, frees the three
    blocks that were obtained, each once, and makes or obtains
    nothing. *)
Theorem heap_destroy_undoes_create (w : W) sys_heap w' t (w1 : W) x w1' t1 :
  ion_system_heap_create w = (inl sys_heap, w', t) ->
  ion_system_heap_destroy sys_heap w1 = (x, w1', t1) ->
  destroyed t1 = created t /\
  Permutation (released t1) (obtained t) /\
  created t1 = [] /\ obtained t1 = [].
Proof.
  intros Hc Hd.
  apply heap_create_success in Hc.
  destruct Hc as (_ & _ & Ho & Hs & Hlu & Hlc & _).
  unfold ion_system_heap_destroy, lbind, call_kfree, lret in Hd.
  destruct (ion_system_heap_destroy_pools_spec _ w1 Hlu)
    as (w2 & t2 & E2 & Hd2 & Hc2 & Ho2 & Hr2 & _).
  rewrite E2 in Hd.
  destruct (ion_system_heap_destroy_pools_spec _ w2 Hlc)
    as (w3 & t3 & E3 & Hd3 & Hc3 & Ho3 & Hr3 & _).
  rewrite E3 in Hd. injection Hd as <- <- <-.
  assert (Hp : present (slots (uncached_pools sys_heap)) ++
               present (slots (cached_pools sys_heap)) = created t).
  { unfold present. rewrite <- flat_map_app. fold (present
      (slots (uncached_pools sys_heap) ++ slots (cached_pools sys_heap))).
    rewrite Hs. apply present_some. }
  rewrite <- Hp, Ho. clear Hp Hs Ho.
  read_life_trace.
  rewrite Hd2, Hd3, Hc2, Hc3, Ho2, Ho3, Hr2, Hr3. cbn [app].
  rewrite !app_nil_r.
  split; [reflexivity | split; [ | split; reflexivity]].
  apply perm_trans with
    (l' := [block (uncached_pools sys_heap); heap_block (heap sys_heap);
            block (cached_pools sys_heap)]).
  - apply perm_skip. apply perm_swap.
  - apply perm_swap.
Qed.

End LifeProperties.

Section LifeWitnesses.
Import Lifecycle.

Lemma create_pools_is_all_or_nothing_witness :
  let w' := mk_sim 8192 [] [] [] 101 in
  let t := [ev_pool_create 1 8 (Some 100); ev_pool_create 1 4 None;
            ev_pool_destroy 100] in
  ion_system_heap_create_pools (repeat None num_orders) (sim_failing 1) =
    ((1, [Some 100; None; None]), w', t) /\
  destroyed t = created t /\ created t = [100].
Proof.
  intros w' t.
  assert (Hrun : ion_system_heap_create_pools (repeat None num_orders)
                   (sim_failing 1) = ((1, [Some 100; None; None]), w', t))
    by (vm_compute; reflexivity).
  split; [exact Hrun | ].
  destruct (create_pools_is_all_or_nothing _ _ _ _ _ Hrun)
    as [(H & _) | (_ & H & _)]; [discriminate H | ].
  split; [exact H | reflexivity].
Defined.

Lemma heap_create_failure_leaks_nothing_witness :
  let w' := mk_sim 8192 [] [] [] 107 in
  let t := [ev_kzalloc sizeof_ion_system_heap (Some 100);
            ev_kzalloc pools_size (Some 101);
            ev_kzalloc pools_size (Some 102);
            ev_pool_create 1 8 (Some 103); ev_pool_create 1 4 (Some 104);
            ev_pool_create 0 0 (Some 105); ev_pool_create 1 8 (Some 106);
            ev_pool_create 1 4 None;
            ev_pool_destroy 106; ev_pool_destroy 103; ev_pool_destroy 104;
            ev_pool_destroy 105;
            ev_kfree 102; ev_kfree 101; ev_kfree 100] in
  ion_system_heap_create (sim_failing 7) = (inr (- ENOMEM), w', t) /\
  Permutation (destroyed t) (created t) /\
  Permutation (released t) (obtained t).
Proof.
  intros w' t.
  assert (Hrun : ion_system_heap_create (sim_failing 7) =
                 (inr (- ENOMEM), w', t))
    by (vm_compute; reflexivity).
  split; [exact Hrun | ].
  exact (proj2 (heap_create_failure_leaks_nothing _ _ _ _ Hrun)).
Defined.

Lemma heap_create_success_witness :
  let sys_heap :=
    mk_system_heap
      (mk_heap 100 system_heap_ops ION_HEAP_TYPE_SYSTEM 1 true)
      (mk_array 101 [Some 103; Some 104; Some 105])
      (mk_array 102 [Some 106; Some 107; Some 108]) in
  let w' := mk_sim 8192 [] [] [] 109 in
  let t := [ev_kzalloc sizeof_ion_system_heap (Some 100);
            ev_kzalloc pools_size (Some 101);
            ev_kzalloc pools_size (Some 102);
            ev_pool_create 1 8 (Some 103); ev_pool_create 1 4 (Some 104);
            ev_pool_create 0 0 (Some 105); ev_pool_create 1 8 (Some 106);
            ev_pool_create 1 4 (Some 107); ev_pool_create 0 0 (Some 108)] in
  ion_system_heap_create (mk_sim 8192 [] [] [] 100) = (inl sys_heap, w', t) /\
  destroyed t = [] /\ released t = [] /\
  slots (uncached_pools sys_heap) ++ slots (cached_pools sys_heap) =
    map Some (created t).
Proof.
  intros sys_heap w' t.
  assert (Hrun : ion_system_heap_create (mk_sim 8192 [] [] [] 100) =
                 (inl sys_heap, w', t))
    by (vm_compute; reflexivity).
  split; [exact Hrun | ].
  destruct (heap_create_success _ _ _ _ Hrun) as (Hd & Hr & _ & Hs & _).
  split; [exact Hd | split; [exact Hr | exact Hs]].
Defined.

Lemma heap_destroy_undoes_create_witness :
  let sys_heap :=
    mk_system_heap
      (mk_heap 100 system_heap_ops ION_HEAP_TYPE_SYSTEM 1 true)
      (mk_array 101 [Some 103; Some 104; Some 105])
      (mk_array 102 [Some 106; Some 107; Some 108]) in
  let w' := mk_sim 8192 [] [] [] 109 in
  let t := [ev_kzalloc sizeof_ion_system_heap (Some 100);
            ev_kzalloc pools_size (Some 101);
            ev_kzalloc pools_size (Some 102);
            ev_pool_create 1 8 (Some 103); ev_pool_create 1 4 (Some 104);
            ev_pool_create 0 0 (Some 105); ev_pool_create 1 8 (Some 106);
            ev_pool_create 1 4 (Some 107); ev_pool_create 0 0 (Some 108)] in
  let t1 := [ev_pool_destroy 103; ev_pool_destroy 104; ev_pool_destroy 105;
             ev_pool_destroy 106; ev_pool_destroy 107; ev_pool_destroy 108;
             ev_kfree 101; ev_kfree 102; ev_kfree 100] in
  ion_system_heap_create (mk_sim 8192 [] [] [] 100) = (inl sys_heap, w', t) /\
  ion_system_heap_destroy sys_heap w' = (tt, w', t1) /\
  destroyed t1 = created t /\
  Permutation (released t1) (obtained t).
Proof.
  intros sys_heap w' t t1.
  assert (Hrun : ion_system_heap_create (mk_sim 8192 [] [] [] 100) =
                 (inl sys_heap, w', t))
    by (vm_compute; reflexivity).
  assert (Hd : ion_system_heap_destroy sys_heap w' = (tt, w', t1))
    by (vm_compute; reflexivity).
  split; [exact Hrun | split; [exact Hd | ]].
  destruct (heap_destroy_undoes_create _ _ _ _ _ _ _ _ Hrun Hd)
    as (H1 & H2 & _).
  split; [exact H1 | exact H2].
Defined.

End LifeWitnesses.

Section ContigLife.
Import Lifecycle.
Context {W : Type} {K : Kernel W} {F : PoolFactory W}.

(** X17. The contiguous heap holds one block and no pool: whatever
    [kzalloc] answers, [ion_system_contig_heap_create] makes no page pool
    and frees nothing; when it fails it answers [-ENOMEM] and holds no
    block, and when it succeeds the heap is of type
    [ION_HEAP_TYPE_SYSTEM_CONTIG] with [kmalloc_ops], and
    [ion_system_contig_heap_destroy] of it, from any world, frees exactly
    the one block that the creation obtained. *)
Theorem contig_heap_destroy_undoes_create (w : W) r w' t :
  ion_system_contig_heap_create w = (r, w', t) ->
  created t = [] /\ destroyed t = [] /\ released t = [] /\
  match r with
  | inr e => e = - ENOMEM /\ obtained t = []
  | inl heap =>
      type heap = ION_HEAP_TYPE_SYSTEM_CONTIG /\ ops heap = kmalloc_ops /\
      forall w1 : W,
        released (snd (ion_system_contig_heap_destroy heap w1)) = obtained t /\
        destroyed (snd (ion_system_contig_heap_destroy heap w1)) = []
  end.
Proof.
  unfold ion_system_contig_heap_create, lbind, call_kzalloc, lret.
  destruct (kzalloc sizeof_ion_heap w) as [[p | ] w0] eqn:E;
    intros Hrun; injection Hrun as <- <- <-; repeat split.
Qed.

End ContigLife.

Section ContigLifeWitness.
Import Lifecycle.

Lemma contig_heap_destroy_undoes_create_witness :
  let heap := mk_heap 100 kmalloc_ops ION_HEAP_TYPE_SYSTEM_CONTIG 0 false in
  let t := [ev_kzalloc sizeof_ion_heap (Some 100)] in
  ion_system_contig_heap_create (mk_sim 8192 [] [] [] 100) =
    (inl heap, mk_sim 8192 [] [] [] 101, t) /\
  released (snd (ion_system_contig_heap_destroy heap
                   (mk_sim 8192 [] [] [] 101))) = [100].
Proof.
  intros heap t.
  assert (Hrun : ion_system_contig_heap_create (mk_sim 8192 [] [] [] 100) =
                 (inl heap, mk_sim 8192 [] [] [] 101, t))
    by (vm_compute; reflexivity).
  split; [exact Hrun | ].
  destruct (contig_heap_destroy_undoes_create _ _ _ _ Hrun)
    as (_ & _ & _ & _ & _ & H).
  exact (proj1 (H (mk_sim 8192 [] [] [] 101))).
Defined.

End ContigLifeWitness.
